(** * bbop-response-golr: the GOlr response object of [lib/response.js]

    A shallow embedding of the accessors of [lib/response.js] and the
    properties its specification states about them.

    Modelling conventions.
    - A JSON datum is a [json]; a JavaScript value is a [value], that is
      a JSON datum or [undefined].  Numbers are integers ([Z]); strings
      are byte strings, which coincides with JavaScript strings on ASCII.
    - An object of the payload is a finite map of its own properties.
      A read of a name that is not an own property but inherited from a
      prototype object of the host yields a function or object of the
      host, which is no [value]: properties that read an absent name
      taken from the data assume it is not [inherited].  On the objects
      the program builds itself, the guards and writes of
      [query_filters] and [facet_counts] do see the inherited members
      ([ensure], [put2]); a write that lands on such a member changes an
      object of the host and is not followed.
    - The numbers of the paging accessors are doubles ([number]): sums
      and differences are rounded as the host rounds them.
    - A method that only reads [this._raw] is a function to [result];
      a method that touches the caches runs in the monad [M], which
      threads the receiver and stops at the first exception, keeping the
      mutations done so far.
    - [JSON.parse], [underscore] and [bbop-core] are dependencies, not
      code of this package: [JSON.parse] is a parameter of the
      development, [us.each], [us.keys] and [bbop.what_is] are written
      out for JSON data. *)

From Stdlib Require Import Ascii String.
From stdpp Require Import gmap strings list fin_maps pretty sorting.

Set Warnings "-register-all,-clear-no-such-hyp".

Local Open Scope string_scope.

(** ** JavaScript values *)

Inductive json : Type :=
| JNull
| JBool (b : bool)
| JNum (n : Z)
| JStr (s : string)
| JArr (l : list json)
| JObj (m : gmap string json).

(** [None] is [undefined]. *)
Definition value : Type := option json.

Definition undefined : value := None.
Definition null : value := Some JNull.

Inductive error : Type := TypeError | SyntaxError.

Inductive result (A : Type) : Type :=
| Ok (a : A)
| Throw (e : error).
Arguments Ok {A} a.
Arguments Throw {A} e.

Definition rbind {A B} (r : result A) (f : A → result B) : result B :=
  match r with
  | Ok a => f a
  | Throw e => Throw e
  end.

Notation "'let+' x ':=' r 'in' k" := (rbind r (λ x, k))
  (at level 10, x name, r at level 100, k at level 200,
   format "'[v' 'let+'  x  ':='  r  'in' '/' k ']'").

(** ToBoolean. *)
Definition truthy (v : value) : bool :=
  match v with
  | None | Some JNull => false
  | Some (JBool b) => b
  | Some (JNum n) => negb (n =? 0)%Z
  | Some (JStr s) => negb (String.eqb s "")
  | Some (JArr _) | Some (JObj _) => true
  end.

(** [Array.prototype.join] on strings. *)
Fixpoint join (sep : string) (l : list string) : string :=
  match l with
  | [] => ""
  | [x] => x
  | x :: r => x ++ sep ++ join sep r
  end.

(** ToString, which is also how a value becomes a property key. *)
Fixpoint json_to_string (j : json) : string :=
  match j with
  | JNull => "null"
  | JBool true => "true"
  | JBool false => "false"
  | JNum n => pretty n
  | JStr s => s
  | JArr l =>
      join "," (map (λ x, match x with
                          | JNull => ""
                          | _ => json_to_string x
                          end) l)
  | JObj _ => "[object Object]"
  end.

Definition to_string (v : value) : string :=
  match v with
  | None => "undefined"
  | Some j => json_to_string j
  end.

(** The array index a property key denotes, if it is the canonical
    decimal form of a position below [len]. *)
Definition index_of_key (k : string) (len : nat) : option nat :=
  fst <$> list_find (λ i : nat, k = pretty i) (seq 0 len).

Definition char_at (s : string) (i : Z) : string :=
  if (i <? 0)%Z then ""
  else match String.get (Z.to_nat i) s with
       | Some c => String c ""
       | None => ""
       end.

Definition str_length (s : string) : Z := Z.of_nat (String.length s).

(** [s.substring(a, b)]: both ends clamped to [0, length], swapped when
    out of order. *)
Definition substring (s : string) (a b : Z) : string :=
  let clamp x := Z.to_nat (Z.max 0 (Z.min x (str_length s))) in
  let lo := Nat.min (clamp a) (clamp b) in
  let hi := Nat.max (clamp a) (clamp b) in
  String.substring lo (hi - lo) s.

(** The names every object inherits from [Object.prototype]. *)
Definition object_members : list string :=
  ["constructor"; "hasOwnProperty"; "isPrototypeOf"; "propertyIsEnumerable";
   "toLocaleString"; "toString"; "valueOf"; "__proto__";
   "__defineGetter__"; "__defineSetter__"; "__lookupGetter__"; "__lookupSetter__"].

Definition inherited (k : string) : bool := bool_decide (k ∈ object_members).

(** Property read [v[k]] on own properties, array and string indices and
    [length]; reading a property of [null] or [undefined] throws.  A name
    that is not an own property but a member of a prototype object of
    the host reads a function or object of the host, for which [value]
    has no term; where a statement reads an absent name that comes from
    the data, it takes the name not to be [inherited]. *)
Definition get (v : value) (k : string) : result value :=
  match v with
  | None | Some JNull => Throw TypeError
  | Some (JBool _) | Some (JNum _) => Ok undefined
  | Some (JStr s) =>
      match index_of_key k (String.length s) with
      | Some i => Ok (Some (JStr (char_at s (Z.of_nat i))))
      | None => if String.eqb k "length" then Ok (Some (JNum (str_length s)))
                else Ok undefined
      end
  | Some (JArr l) =>
      match index_of_key k (length l) with
      | Some i => Ok (l !! i)
      | None => if String.eqb k "length" then Ok (Some (JNum (Z.of_nat (length l))))
                else Ok undefined
      end
  | Some (JObj m) => Ok (m !! k)
  end.

(** [v === "s"] and [v === n] against a literal. *)
Definition is_str (v : value) (s : string) : bool :=
  match v with
  | Some (JStr t) => String.eqb t s
  | _ => false
  end.

Definition is_num (v : value) (n : Z) : bool :=
  match v with
  | Some (JNum m) => (m =? n)%Z
  | _ => false
  end.

(** [bbop.what_is] of bbop-core on JSON data: the [typeof] name, with
    ["null"] and ["array"] told apart from ["object"], and [null] for
    [undefined].  Objects carrying an [_is_a] tag are bbop class
    instances, which a parsed payload does not contain. *)
Definition what_is (v : value) : value :=
  match v with
  | None => null
  | Some JNull => Some (JStr "null")
  | Some (JBool _) => Some (JStr "boolean")
  | Some (JNum _) => Some (JStr "number")
  | Some (JStr _) => Some (JStr "string")
  | Some (JArr _) => Some (JStr "array")
  | Some (JObj _) => Some (JStr "object")
  end.

(** The (item, index) pairs [us.each] visits, in order: the elements of
    an array, the characters of a string, the own properties of an
    object; nothing for any other value.  The properties of an object
    come in the order of the finite map, not in JavaScript's insertion
    order, and an object is never taken for array-like; no property
    below depends on either. *)
Definition each_entries (v : value) : list (value * value) :=
  match v with
  | Some (JArr l) => imap (λ i x, (Some x, Some (JNum (Z.of_nat i)))) l
  | Some (JStr s) =>
      imap (λ i c, (Some (JStr (String c "")), Some (JNum (Z.of_nat i))))
           (list_ascii_of_string s)
  | Some (JObj m) => (λ kv, (Some kv.2, Some (JStr kv.1))) <$> map_to_list m
  | _ => []
  end.

(** [us.keys]: own property names of an object or array, for an object
    in the order of the finite map. *)
Definition keys (v : value) : list string :=
  match v with
  | Some (JObj m) => (map_to_list m).*1
  | Some (JArr l) => (λ i : nat, pretty i) <$> seq 0 (length l)
  | _ => []
  end.

(** Read of a property of an object the program built itself. *)
Definition prop (m : gmap string value) (k : string) : value :=
  default undefined (m !! k).

(** ** The response object *)

(** One logged call of [JSON.parse]: the cache key of the document, the
    map field and the string handed to the parser.  The log is ghost
    state: the program never reads it. *)
Record decode : Type := Decode {
  decode_doc_key : string;
  decode_map_field : string;
  decode_input : string
}.

Record response : Type := Response {
  _raw : value;
  (* Cache for repeated calls to get_doc* functions. *)
  _doc_id2index : option (gmap string value);
  _doc_index2_id : value;
  _doc_index2id : option (gmap string value);
  (* Cache for repeated calls to resolve labels. *)
  _doc_label_maps : gmap string (gmap string json);
  decodes : list decode
}.

(** The constructor.  Its argument is, as its documentation requires,
    the payload as an object, not as a string; the superclass, which is
    not part of this file, stores such an argument in [_raw] as it is.
    The document index starts as [null], the label cache as [{}].  The
    slot the constructor initialises is [_doc_index2_id];
    [_doc_index2id], which the methods use, does not exist yet. *)
Definition new_response (json_data : value) : response :=
  {| _raw := json_data;
     _doc_id2index := None;
     _doc_index2_id := null;
     _doc_index2id := None;
     _doc_label_maps := ∅;
     decodes := [] |}.

Definition set_doc_id2index (x : option (gmap string value)) (this : response) : response :=
  {| _raw := _raw this;
     _doc_id2index := x;
     _doc_index2_id := _doc_index2_id this;
     _doc_index2id := _doc_index2id this;
     _doc_label_maps := _doc_label_maps this;
     decodes := decodes this |}.

Definition set_doc_index2id (x : option (gmap string value)) (this : response) : response :=
  {| _raw := _raw this;
     _doc_id2index := _doc_id2index this;
     _doc_index2_id := _doc_index2_id this;
     _doc_index2id := x;
     _doc_label_maps := _doc_label_maps this;
     decodes := decodes this |}.

Definition set_doc_label_maps (x : gmap string (gmap string json)) (this : response) : response :=
  {| _raw := _raw this;
     _doc_id2index := _doc_id2index this;
     _doc_index2_id := _doc_index2_id this;
     _doc_index2id := _doc_index2id this;
     _doc_label_maps := x;
     decodes := decodes this |}.

Definition log_decode (d : decode) (this : response) : response :=
  {| _raw := _raw this;
     _doc_id2index := _doc_id2index this;
     _doc_index2_id := _doc_index2_id this;
     _doc_index2id := _doc_index2id this;
     _doc_label_maps := _doc_label_maps this;
     decodes := decodes this ++ [d] |}.

(** Methods that mutate the receiver. *)
Definition M (A : Type) : Type := response → result A * response.

Definition ret {A} (a : A) : M A := λ this, (Ok a, this).
Definition throw {A} (e : error) : M A := λ this, (Throw e, this).
Definition lift {A} (r : result A) : M A := λ this, (r, this).
Definition read {A} (f : response → A) : M A := λ this, (Ok (f this), this).
Definition modify (f : response → response) : M unit := λ this, (Ok tt, f this).

Definition bind {A B} (m : M A) (f : A → M B) : M B :=
  λ this,
    match m this with
    | (Ok a, this') => f a this'
    | (Throw e, this') => (Throw e, this')
    end.

Notation "'do' x '<-' m ';' k" := (bind m (λ x, k))
  (at level 10, x name, m at level 100, k at level 200,
   format "'[v' 'do'  x  '<-'  m ';' '/' k ']'").

(** A loop body run over a list, as [us.each] runs its callback. *)
Fixpoint for_each {A} (l : list A) (body : A → M unit) : M unit :=
  match l with
  | [] => ret tt
  | x :: r => do _ <- body x; for_each r body
  end.

Fixpoint rfold {A B} (body : B → A → result B) (acc : B) (l : list A) : result B :=
  match l with
  | [] => Ok acc
  | x :: r => let+ acc' := body acc x in rfold body acc' r
  end.

(** [robj.a.b...]: a chain of property reads. *)
Definition path (robj : value) (names : list string) : result value :=
  rfold (λ v name, get v name) robj names.

(** *** parameter *)

Definition parameter (this : response) (key : string) : result value :=
  let robj := _raw this in
  let+ params := path robj ["responseHeader"; "params"] in
  let+ v := get params key in
  if truthy v && truthy v then Ok v else Ok null.

(** *** documents, get_doc *)

Definition documents (this : response) : result value :=
  path (_raw this) ["response"; "docs"].

(** The callback of the index build. *)
Definition index_doc (entry : value * value) : M unit :=
  let '(doc_item, doc_index) := entry in
  do did <- lift (get doc_item "id");
  do _ <- modify (λ this,
            set_doc_id2index
              (insert (to_string did) doc_index <$> _doc_id2index this) this);
  modify (λ this,
    set_doc_index2id
      (insert (to_string doc_index) did <$> _doc_index2id this) this).

Definition get_doc (doc_id : value) : M value :=
  do docs <- (λ this, (documents this, this));
  (* First check if the document is available by position. *)
  do at_position <- lift (if truthy docs then get docs (to_string doc_id)
                          else Ok undefined);
  if truthy docs && truthy at_position then ret at_position
  else
    (* Build the doc index if it isn't there. *)
    do id2index <- read _doc_id2index;
    do _ <- (if negb (bool_decide (is_Some id2index)) then
               do _ <- modify (set_doc_id2index (Some ∅));
               do _ <- modify (set_doc_index2id (Some ∅));
               for_each (each_entries docs) index_doc
             else ret tt);
    (* Try and probe it out. *)
    do id2index <- read _doc_id2index;
    match id2index with
    | Some index =>
        match index !! to_string doc_id with
        | Some (Some doc_i) => lift (get docs (json_to_string doc_i))
        | _ => ret null
        end
    | None => ret null
    end.

(** *** get_doc_field *)

Definition get_doc_field (doc_id : value) (field_id : string) : M value :=
  do doc <- get_doc doc_id;
  if truthy doc then
    do v <- lift (get doc field_id);
    match v with
    | Some _ => ret v
    | None => ret null
    end
  else ret null.

(** *** get_doc_label *)

Section get_doc_label.

(** [JSON.parse] of the host: [None] when it throws a [SyntaxError]. *)
Variable JSON_parse : string → option json.

(** The local function [_map_to_try]: probe a JSON string map, caching
    it along the way, for a label. *)
Definition _map_to_try (doc_key : value) (map_field : string) (item_key : value)
  : M value :=
  do map_str <- get_doc_field doc_key map_field;
  if truthy map_str && is_str (what_is map_str) "string" then
    (* First, check the cache. If it's not there add it. *)
    do maps <- read _doc_label_maps;
    do _ <- (if bool_decide (maps !! to_string doc_key = None) then
               modify (λ this,
                 set_doc_label_maps
                   (<[to_string doc_key := ∅]> (_doc_label_maps this)) this)
             else ret tt);
    do maps <- read _doc_label_maps;
    do _ <- match maps !! to_string doc_key with
            | None => throw TypeError
            | Some of_doc =>
                if bool_decide (of_doc !! map_field = None) then
                  do _ <- modify (log_decode
                            (Decode (to_string doc_key) map_field (to_string map_str)));
                  match JSON_parse (to_string map_str) with
                  | None => throw SyntaxError
                  | Some parsed =>
                      modify (λ this,
                        set_doc_label_maps
                          (<[to_string doc_key := <[map_field := parsed]> of_doc]>
                             (_doc_label_maps this)) this)
                  end
                else ret tt
            end;
    (* Pull our map out of the cache. *)
    do maps <- read _doc_label_maps;
    do map <- lift (match maps !! to_string doc_key with
                    | None => Throw TypeError
                    | Some of_doc => Ok (of_doc !! map_field)
                    end);
    (* Probe to see if we have anything in the map. *)
    do hit <- lift (if truthy map then get map (to_string item_key)
                    else Ok undefined);
    if truthy map && truthy hit then ret hit else ret null
  else ret null.

Definition get_doc_label (doc_id : value) (field_id : string) (item_id : value)
  : M value :=
  do doc <- get_doc doc_id;
  do present <- lift (if truthy doc then get doc field_id else Ok undefined);
  if truthy doc && bool_decide (is_Some present) then
    (* First try the '_label' extension. *)
    do ilabel <- get_doc_field doc_id (field_id ++ "_label");
    if truthy ilabel && is_str (what_is ilabel) "string" then
      ret ilabel
    else if truthy ilabel && is_str (what_is ilabel) "array" then
      (* Well, it's multi-valued, but id might just be the one. *)
      do iid <- get_doc_field doc_id field_id;
      do ilabel_length <- lift (get ilabel "length");
      do iid_length <- lift (if truthy iid && is_str (what_is iid) "array"
                             then get iid "length" else Ok undefined);
      if is_num ilabel_length 1 && truthy iid &&
         is_str (what_is iid) "array" && is_num iid_length 1
      then lift (get ilabel "0")
      else
        do mlabel <- _map_to_try doc_id (field_id ++ "_map") item_id;
        if truthy mlabel then ret mlabel
        else
          do cmlabel <- _map_to_try doc_id (field_id ++ "_closure_map") item_id;
          if truthy cmlabel then ret cmlabel
          else
            do lmlabel <- _map_to_try doc_id (field_id ++ "_list_map") item_id;
            if truthy lmlabel then ret lmlabel else ret null
    else ret null
  else ret null.

End get_doc_label.

(** *** get_doc_highlight *)

Definition has_gt (s : string) : bool :=
  bool_decide (">"%char ∈ list_ascii_of_string s).

(** [an.replace(this._hl_regexp, '')]: every [<[^>]*>] removed, leftmost
    match first. *)
Fixpoint strip_from (in_tag : bool) (s : string) : string :=
  match s with
  | EmptyString => ""
  | String c r =>
      if in_tag then
        if Ascii.eqb c ">" then strip_from false r else strip_from true r
      else if Ascii.eqb c "<" && has_gt r then strip_from true r
      else String c (strip_from false r)
  end.

Definition strip_tags (s : string) : string := strip_from false s.

(** The first fragment whose stripped text is [item]; a fragment that is
    not a string has no [replace] method. *)
Fixpoint first_match (item : value) (ans : list value) : result value :=
  match ans with
  | [] => Ok null
  | an :: rest =>
      match an with
      | Some (JStr fragment) =>
          if is_str item (strip_tags fragment) then Ok an
          else first_match item rest
      | _ => Throw TypeError
      end
  end.

Definition get_doc_highlight (doc_id : value) (field_id : string) (item : value)
  : M value :=
  do robj <- read _raw;
  do highlighting <- lift (get robj "highlighting");
  do direct <- lift (if truthy highlighting then get highlighting (to_string doc_id)
                     else Ok undefined);
  do hilite_obj <-
    (if truthy highlighting && truthy direct then ret direct
     else
       do index2id <- read _doc_index2id;
       match index2id with
       | None => throw TypeError
       | Some index =>
           let iid := prop index (to_string doc_id) in
           if truthy iid then
             do new_doc <- get_doc iid;
             do new_doc_id <- lift (get new_doc "id");
             do by_id <- lift (if truthy highlighting
                               then get highlighting (to_string new_doc_id)
                               else Ok undefined);
             if truthy highlighting && truthy by_id then ret by_id else ret null
           else ret null
       end);
  if truthy hilite_obj then
    do a1 <- lift (get hilite_obj (field_id ++ "_label_searchable"));
    let ans := if truthy a1 then a1 else null in
    do a2 <- lift (if truthy ans then Ok ans
                   else get hilite_obj (field_id ++ "_label"));
    let ans := if truthy a2 then a2 else null in
    do a3 <- lift (if truthy ans then Ok ans
                   else get hilite_obj (field_id ++ "_searchable"));
    let ans := if truthy a3 then a3 else null in
    do a4 <- lift (if truthy ans then Ok ans else get hilite_obj field_id);
    let ans := if truthy a4 then a4 else null in
    if truthy ans then lift (first_match item (each_entries ans).*1)
    else ret null
  else ret null.

(** *** facet_field_list, facet_field, facet_counts *)

Definition string_le (a b : string) : Prop := String.leb a b = true.

#[global] Instance string_le_dec (a b : string) : Decision (string_le a b) :=
  decide (String.leb a b = true).

Definition facet_field_list (this : response) : result (list string) :=
  let+ facet_fields := path (_raw this) ["facet_counts"; "facet_fields"] in
  Ok (merge_sort string_le (keys facet_fields)).

Definition facet_field (this : response) (facet_name : string) : result value :=
  let+ facet_fields := path (_raw this) ["facet_counts"; "facet_fields"] in
  get facet_fields facet_name.

(** [inner[name] = count] on an object the program made: the name
    [__proto__] is the inherited accessor and records nothing. *)
Definition set_member {A} (inner : gmap string A) (k : string) (x : A)
  : gmap string A :=
  if String.eqb k "__proto__" then inner else <[k := x]> inner.

(** [ret_hash[ffield][name] = count].  When [ffield] is no entry of
    [ret_hash] but an inherited member, the write lands on that member,
    an object of the host, and [ret_hash] stays as it is. *)
Definition put2 {A} (ret_hash : gmap string (gmap string A)) (k1 k2 : string) (x : A)
  : result (gmap string (gmap string A)) :=
  match ret_hash !! k1 with
  | Some inner => Ok (<[k1 := set_member inner k2 x]> ret_hash)
  | None => if inherited k1 then Ok ret_hash else Throw TypeError
  end.

(** Make sure the top field is present: [if( ! ret_hash[k] )] sees the
    entries of [ret_hash] and the inherited members, all of them
    truthy. *)
Definition ensure {A} (ret_hash : gmap string (gmap string A)) (k : string)
  : gmap string (gmap string A) :=
  match ret_hash !! k with
  | Some _ => ret_hash
  | None => if inherited k then ret_hash else <[k := ∅]> ret_hash
  end.

Definition facet_item (ffield : string)
    (ret_hash : gmap string (gmap string value)) (entry : value * value)
  : result (gmap string (gmap string value)) :=
  let item := entry.1 in
  let+ name := get item "0" in
  let+ count := get item "1" in
  put2 ret_hash ffield (to_string name) count.

Definition facet_counts (this : response)
  : result (gmap string (gmap string value)) :=
  let+ facet_field_list := facet_field_list this in
  rfold (λ ret_hash ffield,
           let ret_hash := ensure ret_hash ffield in
           let+ facet_field_items := facet_field this ffield in
           rfold (facet_item ffield) ret_hash (each_entries facet_field_items))
        ∅ facet_field_list.

(** *** query_filters *)

(** [s.split(sep)] for a one-character separator. *)
Fixpoint split (sep : ascii) (s : string) : list string :=
  match s with
  | EmptyString => [""]
  | String c r =>
      if Ascii.eqb c sep then "" :: split sep r
      else match split sep r with
           | w :: ws => String c w :: ws
           | [] => [String c ""]
           end
  end.

Definition dquote : string := String "034"%char "".

(** The callback of the loop over [fq_list]. *)
Definition filter_item (ret_hash : gmap string (gmap string bool)) (entry : value * value)
  : result (gmap string (gmap string bool)) :=
  match entry.1 with
  | Some (JStr fq_item) =>
      match split ":" fq_item with
      | [] => Throw TypeError
      | field :: splits =>
          let value := join ":" splits in
          (* First let's just assume that we have a positive filter. *)
          let '(polarity, field) :=
            if String.eqb (char_at field 0) "-" then
              (false, substring field 1 (str_length field))
            else if String.eqb (char_at field 0) "+" then
              (true, substring field 1 (str_length field))
            else (true, field) in
          let ret_hash := ensure ret_hash field in
          let value :=
            if String.eqb (char_at value 0) dquote &&
               String.eqb (char_at value (str_length value - 1)) dquote
            then substring value 1 (str_length value - 1)
            else value in
          put2 ret_hash field value polarity
      end
  | _ => Throw TypeError
  end.

Definition query_filters (this : response)
  : result (gmap string (gmap string bool)) :=
  let+ fq_list := parameter this "fq" in
  if truthy fq_list then
    let fq_list := if is_str (what_is fq_list) "string"
                   then Some (JArr (match fq_list with
                                    | Some j => [j]
                                    | None => []
                                    end))
                   else fq_list in
    rfold filter_item ∅ (each_entries fq_list)
  else Ok ∅.

(** ** A decoder for flat label maps

    The label maps GOlr stores are flat objects from identifiers to
    labels.  [parse_flat] decodes exactly the texts
    [{"k1":"v1",...,"kn":"vn"}] without escapes or white space, as
    [JSON.parse] does, a repeated key keeping its last value; it rejects
    everything else.  It instantiates [JSON_parse] in the examples. *)

Definition quoted (s : string) : string := dquote ++ s ++ dquote.

Definition flat_text (members : list (string * string)) : string :=
  "{" ++ join "," ((λ kv, quoted kv.1 ++ ":" ++ quoted kv.2) <$> members) ++ "}".

(** The characters up to the closing quote, and what follows it. *)
Fixpoint read_chars (s : string) : option (string * string) :=
  match s with
  | EmptyString => None
  | String c r =>
      if Ascii.eqb c "034" then Some ("", r)
      else if Ascii.eqb c "\" then None
      else match read_chars r with
           | Some (w, r') => Some (String c w, r')
           | None => None
           end
  end.

Definition read_string (s : string) : option (string * string) :=
  match s with
  | String c r => if Ascii.eqb c "034" then read_chars r else None
  | EmptyString => None
  end.

Fixpoint read_members (fuel : nat) (acc : gmap string json) (s : string)
  : option json :=
  match fuel with
  | O => None
  | S fuel =>
      match read_string s with
      | Some (k, String ":" r) =>
          match read_string r with
          | Some (v, String "," r') => read_members fuel (<[k := JStr v]> acc) r'
          | Some (v, String "}" EmptyString) => Some (JObj (<[k := JStr v]> acc))
          | _ => None
          end
      | _ => None
      end
  end.

Definition parse_flat (s : string) : option json :=
  match s with
  | String "{" (String "}" EmptyString) => Some (JObj ∅)
  | String "{" r => read_members (String.length r) ∅ r
  | _ => None
  end.

(** ** Sample payloads *)

Definition obj (members : list (string * json)) : json :=
  JObj (list_to_map members).

(** A payload with the given sections. *)
Definition payload (params : list (string * json)) (docs : list json)
    (facet_fields : list (string * json)) (highlighting : list (string * json))
  : value :=
  Some (obj [("responseHeader", obj [("status", JNum 0); ("params", obj params)]);
             ("response", obj [("numFound", JNum (Z.of_nat (length docs)));
                               ("start", JNum 0); ("maxScore", JNum 1);
                               ("docs", JArr docs)]);
             ("facet_counts", obj [("facet_fields", obj facet_fields)]);
             ("highlighting", obj highlighting)]).

(** A document with two annotation classes, labelled through its maps. *)
Definition doc_classes : json :=
  obj [("id", JStr "d1");
       ("cls", JArr [JStr "GO:1"; JStr "GO:2"]);
       ("cls_label", JArr [JStr "one"; JStr "two"]);
       ("cls_map", JStr (flat_text [("GO:1", "one")]));
       ("cls_closure_map", JStr (flat_text [("GO:1", "uno"); ("GO:2", "two")]))].

Definition doc_plain : json :=
  obj [("id", JStr "d2"); ("taxon", JStr "NCBITaxon:9606");
       ("taxon_label", JStr "Homo sapiens")].

Definition sample_response : response :=
  new_response (payload [("q", JStr "*:*")] [doc_classes; doc_plain] [] []).

(** A payload whose [q] parameter is the empty string. *)
Definition response_empty_q : response :=
  new_response (payload [("q", JStr "")] [] [] []).

(** A payload in which each document's identifier reads as the other's
    position. *)
Definition doc_named_1 : gmap string json := list_to_map [("id", JStr "1")].
Definition doc_named_0 : gmap string json := list_to_map [("id", JStr "0")].

Definition response_swapped_ids : response :=
  new_response (payload [] [JObj doc_named_1; JObj doc_named_0] [] []).

(** C9 as the specification words it, at one response and key. *)
Definition parameter_as_specified (this : response) (key : string) : Prop :=
  ∀ params : gmap string json,
    path (_raw this) ["responseHeader"; "params"] = Ok (Some (JObj params)) →
    (∀ v, params !! key = Some v → parameter this key = Ok (Some v)) ∧
    (parameter this key = Ok null ↔ params !! key = None).



(** The shape of one filter text, in the specification's words: an
    optional sign, the field, a colon, and the value, bare or wrapped in
    one pair of double quotes. *)
Inductive sign : Type := Minus | Plus | Unsigned.

Definition sign_text (s : sign) : string :=
  match s with
  | Minus => "-"
  | Plus => "+"
  | Unsigned => ""
  end.

Definition sign_polarity (s : sign) : bool :=
  match s with
  | Minus => false
  | Plus | Unsigned => true
  end.



Definition colon_free (s : string) : Prop :=
  ":"%char ∉ list_ascii_of_string s.

(** The field carries no sign of its own. *)
Definition sign_free (s : string) : Prop :=
  ∀ rest, s ≠ String "-" rest ∧ s ≠ String "+" rest.

(** The value is not itself wrapped in double quotes. *)
Definition quote_free (v : string) : Prop := ∀ u, v ≠ quoted u.









(** The same facet as GOlr delivers it, one [[value, count]] pair per
    item, here with a repeated value. *)
Definition pair_item (p : string * json) : json := JArr [JStr p.1; p.2].

Definition response_paired_facets : response :=
  new_response
    (payload [] []
       [("go_aspect", JArr (pair_item <$> [("biological_process", JNum 120);
                                           ("molecular_function", JNum 80);
                                           ("biological_process", JNum 7)]))] []).


(** A facet field whose items can all be indexed. *)
Definition non_null (j : json) : bool :=
  match j with
  | JNull => false
  | _ => true
  end.







(** ** Resolution of a document key

    What [get_doc] returns for a key once no index build is pending:
    the document at that position, or the one the index names.  [None]
    means that the call would first have to build the index. *)

Definition probe_index (docs : value) (index : gmap string value) (k : string)
  : result value :=
  match index !! k with
  | Some (Some doc_i) => get docs (json_to_string doc_i)
  | _ => Ok null
  end.

Definition resolved (this : response) (k : string) : option (result value) :=
  match documents this with
  | Throw e => Some (Throw e)
  | Ok docs =>
      match (if truthy docs then get docs k else Ok undefined) with
      | Throw e => Some (Throw e)
      | Ok at_position =>
          if truthy docs && truthy at_position then Some (Ok at_position)
          else match _doc_id2index this with
               | Some index => Some (probe_index docs index k)
               | None => None
               end
      end
  end.

(** The value [get_doc_field] returns for a resolved document. *)
Definition doc_field (doc : value) (field_id : string) : value :=
  if truthy doc then
    match get doc field_id with
    | Ok (Some x) => Some x
    | _ => null
    end
  else null.

(** Every step of [m] is within the relation [R]. *)
Definition steps (R : relation response) {A} (m : M A) : Prop :=
  ∀ this, R this (m this).2.

(** A step that touches nothing but the document index, and never
    discards an index that exists. *)
Definition index_only (this this' : response) : Prop :=
  _raw this' = _raw this ∧
  _doc_label_maps this' = _doc_label_maps this ∧
  decodes this' = decodes this ∧
  (is_Some (_doc_id2index this) → is_Some (_doc_id2index this')).

(** A step that keeps the payload and does not replace an existing
    index; resolution survives it. *)
Definition grows (this this' : response) : Prop :=
  _raw this' = _raw this ∧
  (_doc_id2index this = None ∨ _doc_id2index this' = _doc_id2index this).

(** ** The label cache *)

(** The decoded map cached for a document key and a map field. *)
Definition cached (this : response) (k map_field : string) : option json :=
  _doc_label_maps this !! k ≫= (.!! map_field).

(** [map && map[item_key]], or [null]. *)
Definition probe (map : value) (item_key : string) : value :=
  match (if truthy map then get map item_key else Ok undefined) with
  | Ok hit => if truthy map && truthy hit then hit else null
  | Throw _ => null
  end.

(** The receiver after [_doc_label_maps[doc_key]] has been made sure to
    exist, and after a decoded map has been stored. *)
Definition with_doc_entry (k : string) (this : response) : response :=
  if bool_decide (_doc_label_maps this !! k = None) then
    set_doc_label_maps (<[k := ∅]> (_doc_label_maps this)) this
  else this.

Definition store_map (k map_field : string) (parsed : json) (this : response)
  : response :=
  set_doc_label_maps
    (<[k := <[map_field := parsed]> (default ∅ (_doc_label_maps this !! k))]>
       (_doc_label_maps this)) this.

Section label_resolution.

Variable JSON_parse : string → option json.

(** What [_map_to_try] does once [get_doc_field] has delivered the map
    string: the label it returns and the receiver it leaves. *)
Definition map_outcome (this : response) (k map_field item_key : string)
    (map_str : value) : result value * response :=
  match map_str with
  | Some (JStr s) =>
      if String.eqb s "" then (Ok null, this)
      else match cached this k map_field with
           | Some parsed => (Ok (probe (Some parsed) item_key), this)
           | None =>
               let logged := log_decode (Decode k map_field s) (with_doc_entry k this) in
               match JSON_parse s with
               | Some parsed =>
                   (Ok (probe (Some parsed) item_key),
                    store_map k map_field parsed logged)
               | None => (Throw SyntaxError, logged)
               end
           end
  | _ => (Ok null, this)
  end.

(** The label a map field of a document holds for an item, read from
    the document alone: the specification's "read the field as a
    JSON-encoded string, decode it, probe the mapping". *)
Definition map_label (doc : value) (map_field item_key : string) : result value :=
  match doc_field doc map_field with
  | Some (JStr s) =>
      if String.eqb s "" then Ok null
      else match JSON_parse s with
           | Some parsed => Ok (probe (Some parsed) item_key)
           | None => Throw SyntaxError
           end
  | _ => Ok null
  end.

(** The specification's probing order: the first label found along a
    list of map-field suffixes, and the map fields looked at on the
    way. *)
Fixpoint first_found (doc : value) (field_id item_key : string)
    (suffixes : list string) : result value :=
  match suffixes with
  | [] => Ok null
  | suffix :: rest =>
      let+ label := map_label doc (field_id ++ suffix) item_key in
      if truthy label then Ok label
      else first_found doc field_id item_key rest
  end.

Fixpoint consulted (doc : value) (field_id item_key : string)
    (suffixes : list string) : list string :=
  match suffixes with
  | [] => []
  | suffix :: rest =>
      (field_id ++ suffix) ::
      match map_label doc (field_id ++ suffix) item_key with
      | Ok label => if truthy label then []
                    else consulted doc field_id item_key rest
      | Throw _ => []
      end
  end.

(** Every cached map is the decoding of the map string of the document
    its key resolves to. *)
Definition cache_sound (this : response) : Prop :=
  ∀ k map_field parsed,
    cached this k map_field = Some parsed →
    ∃ doc s, resolved this k = Some (Ok doc) ∧
             doc_field doc map_field = Some (JStr s) ∧
             JSON_parse s = Some parsed.

(** The receivers a caller can produce from a fresh response. *)
Inductive reachable (json_data : value) : response → Prop :=
| reachable_new : reachable json_data (new_response json_data)
| reachable_get_doc this doc_id :
    reachable json_data this →
    reachable json_data (get_doc doc_id this).2
| reachable_get_doc_field this doc_id field_id :
    reachable json_data this →
    reachable json_data (get_doc_field doc_id field_id this).2
| reachable_get_doc_label this doc_id field_id item_id :
    reachable json_data this →
    reachable json_data (get_doc_label JSON_parse doc_id field_id item_id this).2
| reachable_get_doc_highlight this doc_id field_id item :
    reachable json_data this →
    reachable json_data (get_doc_highlight doc_id field_id item this).2.

(** The decodes that succeeded, by cache key. *)
Definition decoded (this : response) : list (string * string) :=
  (λ d, (decode_doc_key d, decode_map_field d)) <$>
  filter (λ d, is_Some (JSON_parse (decode_input d))) (decodes this).

End label_resolution.

Definition map_suffixes : list string := ["_map"; "_closure_map"; "_list_map"].

(** A step that, besides logging decodes, touches only the cache entries
    of document key [k] for the listed map fields. *)
Definition touches (k : string) (fields : list string) (this this' : response)
  : Prop :=
  _raw this' = _raw this ∧
  _doc_id2index this' = _doc_id2index this ∧
  _doc_index2id this' = _doc_index2id this ∧
  (∀ k' map_field, k' ≠ k ∨ map_field ∉ fields →
     cached this' k' map_field = cached this k' map_field) ∧
  ∃ events, decodes this' = (decodes this ++ events)%list ∧
            ∀ e, e ∈ events → decode_doc_key e = k ∧ decode_map_field e ∈ fields.

(** A step that keeps an invariant. *)
Definition keeps (I : response → Prop) : relation response :=
  λ this this', I this → I this'.

(** ** The strategies of get_doc_label *)

(** The document holds the field. *)
Definition has_field (doc : value) (field_id : string) : bool :=
  truthy doc &&
  match get doc field_id with
  | Ok (Some _) => true
  | _ => false
  end.

(** What [get_doc_label] decides from the document alone: the label to
    return, or that the maps have to be probed. *)
Inductive plan : Type :=
| Return (label : value)
| Probe.

Definition label_plan (doc : value) (field_id : string) : plan :=
  if has_field doc field_id then
    match doc_field doc (field_id ++ "_label") with
    | Some (JStr s) => if String.eqb s "" then Return null else Return (Some (JStr s))
    | Some (JArr labels) =>
        match labels, doc_field doc field_id with
        | [label], Some (JArr [_]) => Return (Some label)
        | _, _ => Probe
        end
    | _ => Return null
    end
  else Return null.

(** The probing tail of [get_doc_label]. *)
Definition probe_maps (JSON_parse : string → option json)
    (doc_id : value) (field_id : string) (item_id : value) : M value :=
  do mlabel <- _map_to_try JSON_parse doc_id (field_id ++ "_map") item_id;
  if truthy mlabel then ret mlabel
  else
    do cmlabel <- _map_to_try JSON_parse doc_id (field_id ++ "_closure_map") item_id;
    if truthy cmlabel then ret cmlabel
    else
      do lmlabel <- _map_to_try JSON_parse doc_id (field_id ++ "_list_map") item_id;
      if truthy lmlabel then ret lmlabel else ret null.

(** ** The claims about get_doc_label as the specification words them *)

(** Documents at the edges of label resolution. *)
Definition doc_blank_label : json :=
  obj [("id", JStr "d3"); ("taxon", JStr "NCBITaxon:9606"); ("taxon_label", JStr "")].

Definition doc_unlabelled : json :=
  obj [("id", JStr "d4");
       ("cls", JArr [JStr "GO:1"; JStr "GO:2"]);
       ("cls_map", JStr (flat_text [("GO:1", "one")]))].

Definition doc_blank_map : json :=
  obj [("id", JStr "d5");
       ("cls", JArr [JStr "GO:1"; JStr "GO:2"]);
       ("cls_label", JArr [JStr "one"; JStr "two"]);
       ("cls_map", JStr "")].

Definition doc_broken_map : json :=
  obj [("id", JStr "d6");
       ("cls", JArr [JStr "GO:1"; JStr "GO:2"]);
       ("cls_label", JArr [JStr "one"; JStr "two"]);
       ("cls_map", JStr "{")].

Definition doc_blank_single : json :=
  obj [("id", JStr "d7"); ("cls", JArr [JStr "GO:1"]); ("cls_label", JArr [JStr ""])].

Definition response_of (doc : json) : response :=
  new_response (payload [] [doc] [] []).

(** The sample response after its first document has been asked for a
    label by position and then by identifier. *)
Definition response_asked_twice : response :=
  (get_doc_label parse_flat (Some (JStr "d1")) "cls" (Some (JStr "GO:2"))
     (get_doc_label parse_flat (Some (JNum 0)) "cls" (Some (JStr "GO:2"))
        sample_response).2).2.

(** The label sequence and the raw field sequence both have length one. *)
Definition single_valued (doc : value) (field_id : string) : Prop :=
  ∃ label x, doc_field doc (field_id ++ "_label") = Some (JArr [label]) ∧
             doc_field doc field_id = Some (JArr [x]).

Section as_specified.

Variable JSON_parse : string → option json.

(** C3: two successful decodes of one map field never concern the same
    document, however the callers named it. *)
Definition decoded_once_per_document (this : response) : Prop :=
  ∀ i j e1 e2,
    decodes this !! i = Some e1 → decodes this !! j = Some e2 → i ≠ j →
    is_Some (JSON_parse (decode_input e1)) →
    is_Some (JSON_parse (decode_input e2)) →
    decode_map_field e1 = decode_map_field e2 →
    resolved this (decode_doc_key e1) ≠ resolved this (decode_doc_key e2).

(** C6: whenever the [_label] value is neither a scalar string nor the
    single-valued case, the maps are probed in order. *)
Definition probing_as_specified (this : response) (doc_id : value)
    (field_id : string) (item_id : value) : Prop :=
  ∀ doc this1,
    get_doc doc_id this = (Ok doc, this1) →
    has_field doc field_id = true →
    (∀ s, doc_field doc (field_id ++ "_label") ≠ Some (JStr s)) →
    ¬ single_valued doc field_id →
    (get_doc_label JSON_parse doc_id field_id item_id this).1
    = first_found JSON_parse doc field_id (to_string item_id) map_suffixes.

(** C7: a scalar string [_label] is returned verbatim. *)
Definition scalar_label_as_specified (this : response) (doc_id : value)
    (field_id : string) (item_id : value) : Prop :=
  ∀ doc this1 label,
    get_doc doc_id this = (Ok (Some (JObj doc)), this1) →
    is_Some (doc !! field_id) →
    doc !! (field_id ++ "_label") = Some (JStr label) →
    (get_doc_label JSON_parse doc_id field_id item_id this).1
    = Ok (Some (JStr label)).

(** C8: a probed map field that is a string but not valid JSON makes
    the call fail. *)
Definition malformed_as_specified (this : response) (doc_id : value)
    (field_id : string) (item_id : value) : Prop :=
  ∀ doc this1 labels s,
    get_doc doc_id this = (Ok doc, this1) →
    has_field doc field_id = true →
    doc_field doc (field_id ++ "_label") = Some (JArr labels) →
    ¬ single_valued doc field_id →
    doc_field doc (field_id ++ "_map") = Some (JStr s) →
    JSON_parse s = None →
    (get_doc_label JSON_parse doc_id field_id item_id this).1 = Throw SyntaxError.

(** C10: the empty string is never returned. *)
Definition never_empty_as_specified (this : response) (doc_id : value)
    (field_id : string) (item_id : value) : Prop :=
  (get_doc_label JSON_parse doc_id field_id item_id this).1 ≠ Ok (Some (JStr "")).

(** Each successful decode happened once for its cache key, and its
    result is in the cache. *)
Definition decode_inv (this : response) : Prop :=
  NoDup (decoded JSON_parse this) ∧
  ∀ k map_field, (k, map_field) ∈ decoded JSON_parse this →
                 is_Some (cached this k map_field).

(** Every cached map is the decoding of the non-empty map string of the
    document its key resolves to. *)
Definition cache_exact (this : response) : Prop :=
  ∀ k map_field parsed,
    cached this k map_field = Some parsed →
    ∃ doc s, resolved this k = Some (Ok doc) ∧
             doc_field doc map_field = Some (JStr s) ∧
             s ≠ "" ∧ JSON_parse s = Some parsed.

End as_specified.

(** ** The remaining accessors *)

(** *** raw, success, okay *)

Definition raw (this : response) : value := _raw this.

(** The test of [success]: a chain of [&&], each property read guarded
    by the truthiness of the object it is read from. *)
Definition success_check (this : response) : result bool :=
  let robj := _raw this in
  if truthy robj then
    let+ responseHeader := get robj "responseHeader" in
    if truthy responseHeader then
      let+ status := get responseHeader "status" in
      if bool_decide (is_Some status) && is_num status 0 then
        let+ params := get responseHeader "params" in
        if truthy params then
          let+ response_ := get robj "response" in
          if truthy response_ then
            let+ numFound := get response_ "numFound" in
            let+ start := get response_ "start" in
            let+ maxScore := get response_ "maxScore" in
            if bool_decide (is_Some numFound) && bool_decide (is_Some start) &&
               bool_decide (is_Some maxScore) then
              let+ docs := get response_ "docs" in
              if truthy docs then
                let+ facet_counts_ := get robj "facet_counts" in
                if truthy facet_counts_ then
                  let+ facet_fields := get facet_counts_ "facet_fields" in
                  Ok (truthy facet_fields)
                else Ok false
              else Ok false
            else Ok false
          else Ok false
        else Ok false
      else Ok false
    else Ok false
  else Ok false.

(** [success] with its cache: the slot [_success] of the receiver is
    passed in and handed back, [null] until the first call. *)
Definition success (_success : value) (this : response) : result value * value :=
  match _success with
  | Some JNull =>
      match success_check this with
      | Ok verdict => (Ok (Some (JBool verdict)), Some (JBool verdict))
      | Throw e => (Throw e, _success)
      end
  | _ => (Ok _success, _success)
  end.

Definition okay (_success : value) (this : response) : result value * value :=
  success _success this.

(** *** callback_type, parameters, query *)

Definition callback_type (this : response) : result value :=
  let robj := _raw this in
  let+ params := path robj ["responseHeader"; "params"] in
  let+ v := get params "callback_type" in
  if truthy v && bool_decide (is_Some v) then Ok v else Ok null.

Definition parameters (this : response) : result value :=
  path (_raw this) ["responseHeader"; "params"].

Definition query (this : response) : result value :=
  let robj := _raw this in
  let+ params := path robj ["responseHeader"; "params"] in
  let+ q := (if truthy params then get params "q" else Ok undefined) in
  if truthy params && truthy q then Ok q else Ok null.

(** *** Paging *)

(** The numbers [parseInt] returns and their sums and differences:
    [NaN], an infinity, or a double whose value is an integer.  A
    negative zero counts as zero, from which [+], [-] and [>] do not
    tell it apart. *)
Inductive number : Type :=
| NaN
| Infinity (negative : bool)
| Finite (n : Z).

(** The double nearest to an integer: exact up to [2^53] in magnitude,
    beyond that rounded to 53 significant bits, a tie going to the even
    significand, and infinite from [2^1024] on. *)
Definition round_double (x : Z) : number :=
  let a := Z.abs x in
  if (a <=? 2 ^ 53)%Z then Finite x
  else
    let k := (Z.log2 a - 52)%Z in
    let q := Z.shiftr a k in
    let r := Z.land a (Z.ones k) in
    let half := Z.shiftl 1 (k - 1) in
    let q := if (half <? r)%Z || ((r =? half)%Z && Z.odd q) then (q + 1)%Z else q in
    let m := Z.shiftl q k in
    if (2 ^ 1024 <=? m)%Z then Infinity (x <? 0)%Z
    else Finite (Z.sgn x * m)%Z.

(** [a + b] and [a - b] on doubles: the exact result, rounded. *)
Definition plus (a b : number) : number :=
  match a, b with
  | NaN, _ | _, NaN => NaN
  | Infinity s, Infinity t => if Bool.eqb s t then Infinity s else NaN
  | Infinity s, Finite _ | Finite _, Infinity s => Infinity s
  | Finite x, Finite y => round_double (x + y)
  end.

Definition minus (a b : number) : number :=
  match a, b with
  | NaN, _ | _, NaN => NaN
  | Infinity s, Infinity t => if Bool.eqb s t then NaN else Infinity s
  | Infinity s, Finite _ => Infinity s
  | Finite _, Infinity s => Infinity (negb s)
  | Finite x, Finite y => round_double (x - y)
  end.

(** [a > b]: false as soon as one side is [NaN]. *)
Definition greater (a b : number) : bool :=
  match a, b with
  | NaN, _ | _, NaN => false
  | Infinity s, Infinity t => negb s && t
  | Infinity s, Finite _ => negb s
  | Finite _, Infinity t => t
  | Finite x, Finite y => (y <? x)%Z
  end.

(** The integers a double holds exactly, one by one. *)
Definition exact (x : Z) : Prop := (- 2 ^ 53 ≤ x ≤ 2 ^ 53)%Z.

Section paging.

(** [parseInt] of the host: [NaN] when the argument does not start with
    an integer, and otherwise the double nearest to that integer. *)
Variable parseInt : value → number.

Definition row_step (this : response) : result number :=
  let+ rows := path (_raw this) ["responseHeader"; "params"; "rows"] in
  Ok (parseInt rows).

Definition total_documents (this : response) : result number :=
  let+ numFound := path (_raw this) ["response"; "numFound"] in
  Ok (parseInt numFound).

Definition start_document (this : response) : result number :=
  let+ start := path (_raw this) ["response"; "start"] in
  Ok (plus (parseInt start) (Finite 1)).

Definition end_document (this : response) : result number :=
  let+ start_document := start_document this in
  let+ length_ := path (_raw this) ["response"; "docs"; "length"] in
  Ok (minus (plus start_document (parseInt length_)) (Finite 1)).


Definition paging_p (this : response) : result bool :=
  let+ total := total_documents this in
  let+ rows := row_step this in
  Ok (greater total rows).

Definition paging_previous_p (this : response) : result bool :=
  let+ start := start_document this in
  Ok (greater start (Finite 1)).

Definition paging_next_p (this : response) : result bool :=
  let+ total := total_documents this in
  let+ last := end_document this in
  Ok (greater total last).

End paging.

(** An instance of [parseInt] for the examples.  It is meant for
    numbers below [10^21] in magnitude, which print as their digits, and
    for values whose text does not start with a number. *)
Definition parse_int_number (v : value) : number :=
  match v with
  | Some (JNum n) => round_double n
  | _ => NaN
  end.

Definition response_second_page : response :=
  new_response
    (Some (obj [("responseHeader",
                 obj [("status", JNum 0); ("params", obj [("rows", JNum 2)])]);
                ("response",
                 obj [("numFound", JNum 5); ("start", JNum 2); ("maxScore", JNum 1);
                      ("docs", JArr [doc_classes; doc_plain])]);
                ("facet_counts", obj [("facet_fields", obj [])])])).


(** ** The document index, as data *)

(** [doc_item['id']] of a document that is not [null], and the property
    key it becomes. *)
Definition doc_did (doc : json) : value :=
  match get (Some doc) "id" with
  | Ok did => did
  | Throw _ => undefined
  end.

Definition id_key (doc : json) : string := to_string (doc_did doc).

(** The two maps the build loop leaves, from position [i] on:
    identifier to position and position to identifier. *)
Fixpoint index_docs (i : nat) (docs : list json)
    (maps : gmap string value * gmap string value)
  : gmap string value * gmap string value :=
  match docs with
  | [] => maps
  | doc :: rest =>
      index_docs (S i) rest
        (<[id_key doc := Some (JNum (Z.of_nat i))]> maps.1,
         <[pretty (Z.of_nat i) := doc_did doc]> maps.2)
  end.

Definition built_index (docs : list json)
  : gmap string value * gmap string value :=
  index_docs 0 docs (∅, ∅).

(** The receiver with the full index in place. *)
Definition indexed (docs : list json) (this : response) : response :=
  set_doc_index2id (Some (built_index docs).2)
    (set_doc_id2index (Some (built_index docs).1) this).

(** Both index slots are unset, or both hold the full index. *)
Definition index_complete (docs : list json) (this : response) : Prop :=
  (_doc_id2index this = None ∧ _doc_index2id this = None) ∨
  (_doc_id2index this = Some (built_index docs).1 ∧
   _doc_index2id this = Some (built_index docs).2).

(** The last position whose document has the identifier key [k]. *)
Fixpoint last_with_id (k : string) (docs : list json) : option nat :=
  match docs with
  | [] => None
  | doc :: rest =>
      match last_with_id k rest with
      | Some j => Some (S j)
      | None => if decide (id_key doc = k) then Some 0 else None
      end
  end.

(** Documents of which each has an [id] slot to read. *)
Definition all_present (docs : list json) : Prop := forallb non_null docs = true.

(** A payload whose second and third documents share an identifier. *)
Definition doc_first : json := obj [("id", JStr "a"); ("n", JNum 1)].
Definition doc_second : json := obj [("id", JStr "b"); ("n", JNum 2)].
Definition doc_third : json := obj [("id", JStr "b"); ("n", JNum 3)].

Definition response_shared_id : response :=
  new_response (payload [] [doc_first; doc_second; doc_third] [] []).

(** ** Highlights, as data *)

(** No [<] of the string is followed by a [>]: the string holds no tag. *)
Fixpoint tagless (s : string) : bool :=
  match s with
  | EmptyString => true
  | String c r => (if Ascii.eqb c "<" then negb (has_gt r) else true) && tagless r
  end.

(** The keys under which a highlight entry may hold the fragments of a
    field, in the order they are tried. *)
Definition hilite_keys (field_id : string) : list string :=
  [field_id ++ "_label_searchable"; field_id ++ "_label";
   field_id ++ "_searchable"; field_id].

(** The value under the first key that holds a truthy one. *)
Fixpoint first_truthy (entry : gmap string json) (names : list string) : value :=
  match names with
  | [] => null
  | name :: rest =>
      if truthy (entry !! name) then entry !! name else first_truthy entry rest
  end.

(** The first fragment whose text without tags is the item. *)
Definition matching_fragment (item : value) (fragments : list string) : value :=
  match list_find (λ fragment, is_str item (strip_tags fragment) = true) fragments with
  | Some (_, fragment) => Some (JStr fragment)
  | None => null
  end.

Definition response_highlighted : response :=
  new_response
    (payload [] [doc_classes; doc_plain] []
       [("d1", obj [("cls_label", JArr [JStr "<em>one</em> more"; JStr "<em>one</em>";
                                        JStr "<b>one</b>"]);
                    ("cls", JArr [JStr "one"])])]).

(** The part of [get_doc_highlight] that follows the search for the
    highlight entry. *)
Definition pick_fragments (hilite_obj : value) (field_id : string) (item : value)
  : M value :=
  if truthy hilite_obj then
    do a1 <- lift (get hilite_obj (field_id ++ "_label_searchable"));
    let ans := if truthy a1 then a1 else null in
    do a2 <- lift (if truthy ans then Ok ans
                   else get hilite_obj (field_id ++ "_label"));
    let ans := if truthy a2 then a2 else null in
    do a3 <- lift (if truthy ans then Ok ans
                   else get hilite_obj (field_id ++ "_searchable"));
    let ans := if truthy a3 then a3 else null in
    do a4 <- lift (if truthy ans then Ok ans else get hilite_obj field_id);
    let ans := if truthy a4 then a4 else null in
    if truthy ans then lift (first_match item (each_entries ans).*1)
    else ret null
  else ret null.

(** ** Filters and facets at the edges *)

(** A filter without a colon, a filter list with an entry that is no
    string, and a facet field with a [null] item. *)
Definition response_bare_filter : response :=
  new_response (payload [("fq", JStr "-is_obsolete")] [] [] []).


Definition response_null_facet : response :=
  new_response
    (payload [] []
       [("go_aspect", JArr [JArr [JStr "biological_process"; JNum 120]; JNull])] []).

(** * Properties *)

(** ** Property keys and array positions *)

Lemma pretty_Z_of_nat (p : nat) : pretty (Z.of_nat p) = pretty p.
Proof. destruct p; reflexivity. Qed.

Lemma index_of_key_pretty (p len : nat) :
  p < len → index_of_key (pretty p) len = Some p.
Proof.
  intros Hlt. unfold index_of_key.
  destruct (list_find _ _) as [[i x]|] eqn:Hfind; simpl.
  - apply list_find_Some in Hfind as (Hix & Hkey & _).
    apply lookup_seq in Hix as [-> _]. simpl in *.
    f_equal. symmetry. by apply (inj pretty).
  - apply list_find_None in Hfind.
    rewrite Forall_forall in Hfind.
    destruct (Hfind p); [|done].
    apply elem_of_seq. lia.
Qed.

Lemma index_of_key_Some (k : string) (len i : nat) :
  index_of_key k len = Some i → k = pretty i ∧ i < len.
Proof.
  unfold index_of_key. intros Hi.
  destruct (list_find _ _) as [[j x]|] eqn:Hfind; simplify_eq/=.
  apply list_find_Some in Hfind as (Hix & Hkey & _).
  apply lookup_seq in Hix as [-> ?]. done.
Qed.

Lemma get_array_position (l : list json) (p : nat) (x : json) :
  l !! p = Some x → get (Some (JArr l)) (pretty p) = Ok (Some x).
Proof.
  intros Hp. simpl.
  rewrite index_of_key_pretty by (by eapply lookup_lt_Some).
  by rewrite Hp.
Qed.

Lemma get_truthy_Ok (v : value) (k : string) :
  truthy v = true → ∃ x, get v k = Ok x.
Proof.
  destruct v as [[| | | s | l | m]|]; simpl; try done; intros _; eauto.
  - destruct (index_of_key _ _); [eauto|]. destruct (String.eqb _ _); eauto.
  - destruct (index_of_key _ _); [eauto|]. destruct (String.eqb _ _); eauto.
Qed.

(** ** parameter *)

(** C9 (counterexample): with [params = {q: ""}] the key [q] is present,
    yet [parameter("q")] returns [null], not the stored empty string. *)
Lemma parameter_empty_string_is_null :
  parameter response_empty_q "q" = Ok null ∧
  ¬ parameter_as_specified response_empty_q "q".
Proof.
  split; [reflexivity|].
  intros Hspec.
  destruct (Hspec (list_to_map [("q", JStr "")])) as [Hstored _]; [reflexivity|].
  specialize (Hstored (JStr "") eq_refl). discriminate Hstored.
Qed.

(** C9 (amended): [parameter(key)] returns the stored value when the key
    is present with a truthy value, and [null] when its value is falsy
    (empty string, zero, false, null) or when the key is absent and is
    not the name of a member every object inherits. *)
Theorem parameter_truthy_or_null (this : response) (params : gmap string json)
    (key : string) :
  path (_raw this) ["responseHeader"; "params"] = Ok (Some (JObj params)) →
  (∀ v, params !! key = Some v → truthy (Some v) = true →
        parameter this key = Ok (Some v)) ∧
  (∀ v, params !! key = Some v → truthy (Some v) = false →
        parameter this key = Ok null) ∧
  (params !! key = None → inherited key = false → parameter this key = Ok null).
Proof.
  intros Hparams. unfold parameter. rewrite Hparams. cbn [rbind get].
  split_and!.
  - intros v -> Hv. by rewrite Hv.
  - intros v -> Hv. by rewrite Hv.
  - by intros -> _.
Qed.

Lemma parameter_truthy_or_null_witness :
  parameter sample_response "q" = Ok (Some (JStr "*:*")) ∧
  parameter response_empty_q "q" = Ok null ∧
  parameter sample_response "fq" = Ok null.
Proof.
  split_and!.
  - apply (parameter_truthy_or_null sample_response
             (list_to_map [("q", JStr "*:*")]) "q"); reflexivity.
  - apply (parameter_truthy_or_null response_empty_q
             (list_to_map [("q", JStr "")]) "q"
             ltac:(reflexivity)) with (v := JStr ""); reflexivity.
  - apply (parameter_truthy_or_null sample_response
             (list_to_map [("q", JStr "*:*")]) "fq"); reflexivity.
Defined.

(** ** get_doc *)

(** C5: for a position [p] inside the document sequence, [get_doc(p)]
    returns the document at [p] and leaves the caches alone, whatever
    the documents' identifiers are and whatever the index holds; the key
    may be the number or its decimal string. *)
Theorem get_doc_position_first (this : response) (docs : list json) (p : nat)
    (doc : gmap string json) (doc_id : value) :
  documents this = Ok (Some (JArr docs)) →
  docs !! p = Some (JObj doc) →
  to_string doc_id = pretty p →
  get_doc doc_id this = (Ok (Some (JObj doc)), this).
Proof.
  intros Hdocs Hp Hkey. unfold get_doc, bind, lift, ret.
  rewrite Hdocs, Hkey. cbn [truthy].
  by rewrite (get_array_position _ _ _ Hp).
Qed.

Lemma get_doc_position_first_witness :
  get_doc (Some (JNum 1)) response_swapped_ids
  = (Ok (Some (JObj doc_named_0)), response_swapped_ids).
Proof.
  apply (get_doc_position_first response_swapped_ids
           [JObj doc_named_1; JObj doc_named_0] 1); reflexivity.
Defined.

(** ** get_doc_highlight *)

(** C2 (failing input): on a freshly constructed response the slot
    [_doc_index2id] does not exist, so a highlight lookup whose key is
    not in the highlighting section throws a [TypeError] where the claim
    promises [null]; once an identifier lookup has built the index, the
    same call returns [null]. *)
Theorem get_doc_highlight_before_index_throws :
  get_doc_highlight (Some (JNum 0)) "cls" (Some (JStr "one")) sample_response
  = (Throw TypeError, sample_response) ∧
  (get_doc_highlight (Some (JNum 0)) "cls" (Some (JStr "one"))
     (get_doc (Some (JStr "d2")) sample_response).2).1
  = Ok null.
Proof. split; vm_compute; reflexivity. Qed.

(** ** query_filters *)





Lemma substring_all (s : string) : String.substring 0 (String.length s) s = s.
Proof. induction s as [|c r IH]; [done|]. simpl. by rewrite IH. Qed.


Lemma length_append (a b : string) :
  String.length (a ++ b) = String.length a + String.length b.
Proof. induction a as [|c a IH]; simpl; [done|]. by rewrite IH. Qed.

Lemma get_append_end (w : string) (c : ascii) (r : string) :
  String.get (String.length w) (w ++ String c r) = Some c.
Proof. induction w as [|d w IH]; simpl; [done|]. exact IH. Qed.

(** [field.substring(1, field.length)] drops the sign. *)
Lemma substring_tail (c : ascii) (g : string) :
  substring (String c g) 1 (str_length (String c g)) = g.
Proof.
  unfold substring, str_length. simpl String.length.
  replace (Z.to_nat (0 `max` (1 `min` Z.of_nat (S (String.length g))))) with 1 by lia.
  replace (Z.to_nat (0 `max` (Z.of_nat (S (String.length g))
                              `min` Z.of_nat (S (String.length g)))))
    with (S (String.length g)) by lia.
  rewrite Nat.min_l, Nat.max_r by lia.
  simpl. rewrite Nat.sub_0_r. apply substring_all.
Qed.

(** A string that starts and ends with a double quote and has at least
    two characters is a wrapped string. *)
Lemma snoc_string (r : string) :
  r ≠ "" → ∃ u c, r = u ++ String c "".
Proof.
  induction r as [|d r IH]; [done|]. intros _.
  destruct r as [|e r].
  - by exists "", d.
  - destruct IH as (u & c & Hu); [done|]. exists (String d u), c. simpl. by rewrite Hu.
Qed.
Lemma quoted_eq (w : string) : quoted w = String "034" (w ++ String "034" "").
Proof. reflexivity. Qed.

(** A value that is not wrapped is kept as it is. *)
Lemma unquote_bare (v : string) :
  quote_free v →
  (if String.eqb (char_at v 0) dquote &&
      String.eqb (char_at v (str_length v - 1)) dquote
   then substring v 1 (str_length v - 1)
   else v) = v.
Proof.
  intros Hfree.
  destruct (String.eqb_spec (char_at v 0) dquote) as [Hfirst|]; [|done].
  destruct (String.eqb_spec (char_at v (str_length v - 1)) dquote) as [Hlast|]; [|done].
  cbn [andb].
  destruct v as [|c r]; [done|].
  unfold char_at in Hfirst. cbn in Hfirst. injection Hfirst as ->.
  destruct (decide (r = "")) as [->|Hr]; [done|].
  exfalso. destruct (snoc_string r Hr) as (u & d & ->).
  apply (Hfree u). rewrite quoted_eq. do 3 f_equal.
  revert Hlast. unfold char_at, str_length. cbn [String.length].
  rewrite length_append. cbn [String.length].
  destruct (Z.ltb_spec (Z.of_nat (S (String.length u + 1)) - 1) 0); [lia|].
  replace (Z.to_nat (Z.of_nat (S (String.length u + 1)) - 1))
    with (S (String.length u)) by lia.
  cbn [String.get]. rewrite get_append_end. unfold dquote. by intros [= ->].
Qed.

Lemma colon_free_signed (s : sign) (g : string) :
  colon_free g → colon_free (sign_text s ++ g).
Proof.
  unfold colon_free. destruct s; simpl; [| |done];
    intros Hg; rewrite not_elem_of_cons; by split.
Qed.

Lemma set_member_insert {A} (inner : gmap string A) (k : string) (x : A) :
  k ≠ "__proto__" → set_member inner k x = <[k := x]> inner.
Proof. intros Hk%String.eqb_neq. unfold set_member. by rewrite Hk. Qed.

Lemma put2_ensure {A} (h : gmap string (gmap string A)) (k1 k2 : string) (x : A) :
  inherited k1 = false →
  k2 ≠ "__proto__" →
  put2 (ensure h k1) k1 k2 x
  = Ok (<[k1 := <[k2 := x]> (default ∅ (h !! k1))]> h).
Proof.
  intros Hk1 Hk2. unfold put2, ensure. destruct (h !! k1) as [inner|] eqn:Hk.
  - by rewrite Hk, set_member_insert.
  - by rewrite Hk1, lookup_insert_eq, insert_insert_eq, set_member_insert.
Qed.


(** Behind an inherited member no entry is made. *)
Lemma put2_ensure_inherited {A} (h : gmap string (gmap string A)) (k1 k2 : string)
    (x : A) :
  h !! k1 = None → inherited k1 = true → put2 (ensure h k1) k1 k2 x = Ok h.
Proof. intros Hk Hin. unfold put2, ensure. by rewrite Hk, Hin, Hk. Qed.



(** What [parameter] computes on a payload with a params object. *)
Lemma parameter_lookup (this : response) (params : gmap string json) (key : string) :
  path (_raw this) ["responseHeader"; "params"] = Ok (Some (JObj params)) →
  parameter this key
  = Ok (if truthy (params !! key) then params !! key else null).
Proof.
  intros Hparams. unfold parameter. rewrite Hparams. cbn [rbind get].
  by destruct (truthy (params !! key)).
Qed.





(** ** facet_counts *)

Lemma get_non_null (item : json) (k : string) :
  item ≠ JNull → ∃ x, get (Some item) k = Ok x.
Proof.
  destruct item as [| | | s | l | m]; simpl; try done; intros _; eauto.
  - destruct (index_of_key _ _); [eauto|]. destruct (String.eqb _ _); eauto.
  - destruct (index_of_key _ _); [eauto|]. destruct (String.eqb _ _); eauto.
Qed.










(** ** The monad of receiver-mutating methods *)

Lemma bind_Ok {A B} (m : M A) (f : A → M B) (this this1 : response) (a : A) :
  m this = (Ok a, this1) → bind m f this = f a this1.
Proof. unfold bind. by intros ->. Qed.

Lemma bind_Throw {A B} (m : M A) (f : A → M B) (this this1 : response) (e : error) :
  m this = (Throw e, this1) → bind m f this = (Throw e, this1).
Proof. unfold bind. by intros ->. Qed.

Lemma bind_inv {A B} (m : M A) (f : A → M B) (this this' : response) (r : result B) :
  bind m f this = (r, this') →
  (∃ a this1, m this = (Ok a, this1) ∧ f a this1 = (r, this')) ∨
  (∃ e, m this = (Throw e, this') ∧ r = Throw e).
Proof.
  unfold bind. destruct (m this) as [[a|e] this1]; intros Hrun.
  - left. eauto.
  - right. injection Hrun as <- <-. eauto.
Qed.

Section steps.
Context (R : relation response) `{!PreOrder R}.

Lemma steps_ret {A} (a : A) : steps R (ret a).
Proof. intros this. reflexivity. Qed.

Lemma steps_throw {A} (e : error) : steps R (throw (A := A) e).
Proof. intros this. reflexivity. Qed.

Lemma steps_lift {A} (r : result A) : steps R (lift r).
Proof. intros this. reflexivity. Qed.

Lemma steps_read {A} (f : response → A) : steps R (read f).
Proof. intros this. reflexivity. Qed.

Lemma steps_bind {A B} (m : M A) (f : A → M B) :
  steps R m → (∀ a, steps R (f a)) → steps R (bind m f).
Proof.
  intros Hm Hf this. unfold bind.
  specialize (Hm this). destruct (m this) as [[a|e] this1]; [|done].
  by etrans; [exact Hm|apply Hf].
Qed.

Lemma steps_for_each {A} (l : list A) (body : A → M unit) :
  (∀ x, steps R (body x)) → steps R (for_each l body).
Proof.
  intros Hbody. induction l as [|x l IH]; [apply steps_ret|].
  apply steps_bind; [apply Hbody|done].
Qed.

End steps.

(** ** get_doc and the document index *)

#[local] Instance index_only_preorder : PreOrder index_only.
Proof.
  split.
  - by intros this.
  - intros a b c (? & ? & ? & Hab) (? & ? & ? & Hbc).
    split_and!; [congruence..|]. intros Ha. by apply Hbc, Hab.
Qed.

Lemma index_doc_index_only (entry : value * value) :
  steps index_only (index_doc entry).
Proof.
  destruct entry as [doc_item doc_index]. unfold index_doc.
  apply steps_bind; [apply _|apply steps_lift; apply _|]. intros did.
  apply steps_bind; [apply _| |intros _].
  - intros this. split_and!; [done..|].
    cbn. by intros [i ->].
  - intros this. split_and!; done.
Qed.

Lemma build_index_only (docs : value) (this : response) :
  index_only this (for_each (each_entries docs) index_doc this).2.
Proof. apply steps_for_each; [apply _|]. apply index_doc_index_only. Qed.

(** [get_doc] either leaves the receiver alone, when the key resolves
    without a build, or builds the index that was missing. *)
Lemma get_doc_cases (doc_id : value) (this this' : response) (r : result value) :
  get_doc doc_id this = (r, this') →
  (this' = this ∧ resolved this (to_string doc_id) = Some r) ∨
  (_doc_id2index this = None ∧ index_only this this' ∧
   is_Some (_doc_id2index this') ∧
   ∀ d, r = Ok d → resolved this' (to_string doc_id) = Some (Ok d)).
Proof.
  unfold get_doc, resolved. unfold bind at 1.
  destruct (documents this) as [docs|e] eqn:Hdocs;
    [|intros [= <- <-]; left; by rewrite ?Hdocs].
  unfold bind at 1, lift at 1.
  destruct (if truthy docs then get docs (to_string doc_id) else Ok undefined)
    as [at_position|e] eqn:Hat; [|intros [= <- <-]; by left].
  destruct (truthy docs && truthy at_position) eqn:Hhit;
    [intros [= <- <-]; by left|].
  unfold bind at 1, read at 1.
  destruct (_doc_id2index this) as [index|] eqn:Hindex.
  - rewrite bool_decide_true by eauto. cbn [negb].
    unfold bind, ret, read, lift. rewrite Hindex.
    unfold probe_index.
    destruct (index !! to_string doc_id) as [[doc_i|]|]; intros [= <- <-]; by left.
  - rewrite bool_decide_false by (by intros [? ?]). cbn [negb].
    intros Hrun. right. split; [done|].
    set (built := for_each (each_entries docs) index_doc
                    (set_doc_index2id (Some ∅) (set_doc_id2index (Some ∅) this))) in *.
    assert (Hbuilt : index_only this built.2 ∧ is_Some (_doc_id2index built.2)).
    { pose proof (build_index_only docs
        (set_doc_index2id (Some ∅) (set_doc_id2index (Some ∅) this))) as (? & ? & ? & Hsome).
      fold built in Hsome |- *.
      split; [split_and!; [done..|]|].
      - rewrite Hindex. by intros [? ?].
      - apply Hsome. cbn. eauto. }
    destruct Hbuilt as [Honly Hsome].
    revert Hrun. unfold bind at 1. unfold bind at 1, modify at 1.
    unfold bind at 1, modify at 1. fold built.
    destruct built as [[[]|e] this1] eqn:Hb; cbn [snd] in *.
    + unfold ret at 1. unfold bind at 1, read at 1.
      destruct Hsome as [index Hfinal]. rewrite Hfinal.
      intros Hprobe.
      assert (this' = this1 ∧ r = probe_index docs index (to_string doc_id))
        as [-> ->].
      { unfold probe_index.
        destruct (index !! to_string doc_id) as [[doc_i|]|];
          unfold lift, ret in Hprobe; by injection Hprobe as <- <-. }
      split_and!; [done|eauto|]. intros d Hd.
      destruct Honly as (Hraw & _). unfold documents in *. rewrite Hraw, Hdocs.
      by rewrite Hat, Hhit, Hfinal, Hd.
    + intros [= <- <-]. split_and!; [done..|]. intros d [=].
Qed.
Lemma get_doc_index_only (doc_id : value) : steps index_only (get_doc doc_id).
Proof.
  intros this. destruct (get_doc doc_id this) as [r this'] eqn:Hrun.
  apply get_doc_cases in Hrun as [[-> _]|(_ & Honly & _)]; [reflexivity|done].
Qed.

Lemma get_doc_settles (doc_id : value) (this this' : response) (doc : value) :
  get_doc doc_id this = (Ok doc, this') →
  resolved this' (to_string doc_id) = Some (Ok doc).
Proof.
  intros Hrun. apply get_doc_cases in Hrun as [[-> ?]|(_ & _ & _ & Hres)]; [done|].
  by apply Hres.
Qed.

(** A resolved key is answered without touching the receiver. *)
Lemma get_doc_resolved (doc_id : value) (this : response) (r : result value) :
  resolved this (to_string doc_id) = Some r → get_doc doc_id this = (r, this).
Proof.
  unfold get_doc, resolved. unfold bind at 1.
  destruct (documents this) as [docs|e]; [|by intros [= <-]].
  unfold bind at 1, lift at 1.
  destruct (if truthy docs then get docs (to_string doc_id) else Ok undefined)
    as [at_position|e]; [|by intros [= <-]].
  destruct (truthy docs && truthy at_position); [by intros [= <-]|].
  unfold bind at 1, read at 1.
  destruct (_doc_id2index this) as [index|] eqn:Hindex; [|done].
  rewrite bool_decide_true by eauto. cbn [negb].
  unfold bind, ret, read, lift. rewrite Hindex. unfold probe_index.
  by destruct (index !! to_string doc_id) as [[doc_i|]|]; intros [= <-].
Qed.

#[local] Instance grows_preorder : PreOrder grows.
Proof.
  split.
  - intros this. split; [done|by right].
  - intros a b c [Hab1 Hab2] [Hbc1 Hbc2]. split; [congruence|].
    destruct Hab2 as [?|Hab2]; [by left|].
    destruct Hbc2 as [Hbc2|Hbc2]; [|right; congruence].
    rewrite Hbc2 in Hab2. by left.
Qed.

Lemma resolved_grows (this this' : response) (k : string) (r : result value) :
  grows this this' → resolved this k = Some r → resolved this' k = Some r.
Proof.
  intros [Hraw Hindex]. unfold resolved, documents. rewrite Hraw.
  destruct (path (_raw this) ["response"; "docs"]) as [docs|e]; [|done].
  destruct (if truthy docs then get docs k else Ok undefined) as [at_position|e];
    [|done].
  destruct (truthy docs && truthy at_position); [done|].
  destruct Hindex as [-> | ->]; done.
Qed.

Lemma get_doc_grows (doc_id : value) : steps grows (get_doc doc_id).
Proof.
  intros this. destruct (get_doc doc_id this) as [r this'] eqn:Hrun.
  apply get_doc_cases in Hrun as [[-> _]|(Hnone & (Hraw & _) & _)]; [reflexivity|].
  split; [done|by left].
Qed.

(** [get_doc_field] on a resolved key. *)
Lemma get_doc_field_resolved (doc_id : value) (field_id : string)
    (this : response) (doc : value) :
  resolved this (to_string doc_id) = Some (Ok doc) →
  get_doc_field doc_id field_id this = (Ok (doc_field doc field_id), this).
Proof.
  intros Hres. unfold get_doc_field.
  rewrite (bind_Ok _ _ _ _ _ (get_doc_resolved _ _ _ Hres)).
  unfold doc_field. destruct (truthy doc) eqn:Hdoc; [|done].
  destruct (get_truthy_Ok doc field_id Hdoc) as [v Hv].
  unfold bind, lift. rewrite Hv. by destruct v.
Qed.

Lemma get_doc_field_inv (doc_id : value) (field_id : string)
    (this this' : response) (v : value) :
  get_doc_field doc_id field_id this = (Ok v, this') →
  ∃ doc, get_doc doc_id this = (Ok doc, this') ∧ v = doc_field doc field_id.
Proof.
  unfold get_doc_field. intros Hrun.
  apply bind_inv in Hrun as [(doc & this1 & Hdoc & Hrest)|(e & _ & [=])].
  exists doc. revert Hrest. unfold doc_field.
  destruct (truthy doc) eqn:Htruthy; [|by intros [= <- <-]].
  destruct (get_truthy_Ok doc field_id Htruthy) as [x Hx].
  unfold bind, lift. rewrite Hx. by destruct x; intros [= <- <-].
Qed.

Lemma get_doc_field_steps (R : relation response) `{!PreOrder R}
    (doc_id : value) (field_id : string) :
  steps R (get_doc doc_id) → steps R (get_doc_field doc_id field_id).
Proof.
  intros Hdoc. unfold get_doc_field.
  apply steps_bind; [done..|]. intros doc.
  destruct (truthy doc); [|by apply steps_ret].
  apply steps_bind; [done|by apply steps_lift|].
  intros [x|]; by apply steps_ret.
Qed.
(** ** _map_to_try *)

Lemma truthy_string (v : value) :
  truthy v && is_str (what_is v) "string"
  = match v with
    | Some (JStr s) => negb (String.eqb s "")
    | _ => false
    end.
Proof.
  destruct v as [[| b | n | s | l | m]|]; cbn [truthy]; try reflexivity;
    [by destruct b | by destruct (n =? 0)%Z | by destruct (String.eqb s "")].
Qed.

Lemma truthy_array (v : value) :
  truthy v && is_str (what_is v) "array"
  = match v with
    | Some (JArr _) => true
    | _ => false
    end.
Proof.
  destruct v as [[| b | n | s | l | m]|]; cbn [truthy]; try reflexivity;
    [by destruct b | by destruct (n =? 0)%Z | by destruct (String.eqb s "")].
Qed.

Section label_proofs.

Variable JSON_parse : string → option json.

Lemma probe_tail (map : value) (item_key : string) (this : response) :
  (do hit <- lift (if truthy map then get map item_key else Ok undefined);
   if truthy map && truthy hit then ret hit else ret null) this
  = (Ok (probe map item_key), this).
Proof.
  unfold probe, bind, lift, ret.
  destruct (truthy map) eqn:Hmap; [|done].
  destruct (get_truthy_Ok map item_key Hmap) as [hit ->].
  by destruct (truthy hit).
Qed.

Lemma map_to_try_outcome (doc_key : value) (map_field : string) (item_key : value)
    (this this1 : response) (map_str : value) :
  get_doc_field doc_key map_field this = (Ok map_str, this1) →
  _map_to_try JSON_parse doc_key map_field item_key this
  = map_outcome JSON_parse this1 (to_string doc_key) map_field
      (to_string item_key) map_str.
Proof.
  intros Hfield. unfold _map_to_try. rewrite (bind_Ok _ _ _ _ _ Hfield).
  unfold map_outcome. rewrite truthy_string.
  destruct map_str as [[| | | s | |]|]; try reflexivity.
  destruct (String.eqb s ""); [reflexivity|]. cbn [negb].
  unfold cached, with_doc_entry, store_map.
  cbn [to_string json_to_string].
  unfold bind at 1, read at 1. unfold bind at 1.
  destruct (_doc_label_maps this1 !! to_string doc_key) as [of_doc|] eqn:Hk.
  - rewrite bool_decide_false by done. unfold ret at 1.
    unfold bind at 1, read at 1. unfold bind at 1. rewrite Hk.
    cbn [mbind option_bind].
    destruct (of_doc !! map_field) as [parsed|] eqn:Hmf.
    + rewrite bool_decide_false by done. unfold ret at 1.
      unfold bind at 1, read at 1. unfold bind at 1, lift at 1. rewrite Hk, Hmf.
      apply probe_tail.
    + rewrite bool_decide_true by done.
      unfold bind at 1, modify at 1.
      destruct (JSON_parse s) as [parsed|]; [|done].
      unfold modify at 1. unfold bind at 1, read at 1. unfold bind at 1, lift at 1.
      cbn [set_doc_label_maps log_decode _doc_label_maps].
      rewrite Hk. cbn [default]. rewrite ?lookup_insert_eq.
      apply probe_tail.
  - rewrite bool_decide_true by done. unfold modify at 1.
    unfold bind at 1, read at 1. unfold bind at 1.
    cbn [set_doc_label_maps _doc_label_maps]. rewrite lookup_insert_eq, lookup_empty.
    rewrite bool_decide_true by done. cbn [mbind option_bind].
    unfold bind at 1, modify at 1.
    destruct (JSON_parse s) as [parsed|]; [|done].
    unfold modify at 1. unfold bind at 1, read at 1. unfold bind at 1, lift at 1.
    cbn [set_doc_label_maps log_decode _doc_label_maps].
    rewrite ?lookup_insert_eq. cbn [default]. rewrite ?lookup_insert_eq.
    rewrite ?insert_insert_eq. apply probe_tail.
Qed.

Lemma map_to_try_throw (doc_key : value) (map_field : string) (item_key : value)
    (this this1 : response) (e : error) :
  get_doc_field doc_key map_field this = (Throw e, this1) →
  _map_to_try JSON_parse doc_key map_field item_key this = (Throw e, this1).
Proof. intros Hfield. unfold _map_to_try. by rewrite (bind_Throw _ _ _ _ _ Hfield). Qed.

End label_proofs.

Lemma cached_with_doc_entry (this : response) (k k' map_field : string) :
  cached (with_doc_entry k this) k' map_field = cached this k' map_field.
Proof.
  unfold with_doc_entry, cached. case_bool_decide as Hk; [|done].
  cbn [set_doc_label_maps _doc_label_maps].
  destruct (decide (k = k')) as [<-|Hne].
  - by rewrite lookup_insert_eq, Hk.
  - by rewrite lookup_insert_ne.
Qed.

Lemma cached_log_decode (this : response) (e : decode) (k map_field : string) :
  cached (log_decode e this) k map_field = cached this k map_field.
Proof. reflexivity. Qed.

Lemma cached_store_map (this : response) (k map_field : string) (parsed : json)
    (k' map_field' : string) :
  cached (store_map k map_field parsed this) k' map_field'
  = if decide (k' = k ∧ map_field' = map_field) then Some parsed
    else cached this k' map_field'.
Proof.
  unfold store_map, cached. cbn [set_doc_label_maps _doc_label_maps].
  destruct (decide (k = k')) as [<-|Hne].
  - rewrite lookup_insert_eq. cbn [mbind option_bind].
    destruct (decide (map_field = map_field')) as [<-|Hne].
    + rewrite lookup_insert_eq. by rewrite decide_True.
    + rewrite lookup_insert_ne by done. rewrite decide_False by naive_solver.
      by destruct (_doc_label_maps this !! k).
  - rewrite lookup_insert_ne by done. by rewrite decide_False by naive_solver.
Qed.

Lemma touches_refl (k : string) (fields : list string) (this : response) :
  touches k fields this this.
Proof.
  split_and!; [done..|]. exists []. split; [by rewrite app_nil_r|].
  intros e He. by apply elem_of_nil in He.
Qed.

Lemma touches_trans (k : string) (fields1 fields2 : list string)
    (a b c : response) :
  touches k fields1 a b → touches k fields2 b c →
  touches k (fields1 ++ fields2)%list a c.
Proof.
  intros (? & ? & ? & Hab & ev1 & Hev1 & Hin1) (? & ? & ? & Hbc & ev2 & Hev2 & Hin2).
  split_and!; [congruence..| |].
  - intros k' mf Hother. rewrite Hbc, Hab; [done| |].
    + destruct Hother as [?|Hmf]; [by left|right]. set_solver.
    + destruct Hother as [?|Hmf]; [by left|right]. set_solver.
  - exists (ev1 ++ ev2)%list. split; [by rewrite Hev2, Hev1, app_assoc|].
    intros e He. apply elem_of_app in He as [He|He].
    + destruct (Hin1 e He). set_solver.
    + destruct (Hin2 e He). set_solver.
Qed.

Lemma touches_weaken (k : string) (fields fields' : list string)
    (this this' : response) :
  fields ⊆ fields' → touches k fields this this' → touches k fields' this this'.
Proof.
  intros Hsub (? & ? & ? & Hcache & events & Hev & Hin).
  split_and!; [done..| |].
  - intros k' mf Hother. apply Hcache. set_solver.
  - exists events. split; [done|]. intros e He. destruct (Hin e He). set_solver.
Qed.

Lemma resolved_same_index (this this' : response) (k : string) :
  _raw this' = _raw this → _doc_id2index this' = _doc_id2index this →
  resolved this' k = resolved this k.
Proof. intros Hraw Hindex. unfold resolved, documents. by rewrite Hraw, Hindex. Qed.

Section map_outcome.

Variable JSON_parse : string → option json.

Lemma map_outcome_touches (this : response) (k map_field item_key : string)
    (map_str : value) :
  touches k [map_field] this
    (map_outcome JSON_parse this k map_field item_key map_str).2.
Proof.
  unfold map_outcome.
  destruct map_str as [[| | | s | |]|]; try apply touches_refl.
  destruct (String.eqb s ""); [apply touches_refl|].
  destruct (cached this k map_field) as [parsed|] eqn:Hcached; [apply touches_refl|].
  assert (Hlogged : touches k [map_field] this
            (log_decode (Decode k map_field s) (with_doc_entry k this))).
  { split_and!.
    - unfold with_doc_entry. by case_bool_decide.
    - unfold with_doc_entry. by case_bool_decide.
    - unfold with_doc_entry. by case_bool_decide.
    - intros k' mf _. rewrite cached_log_decode. apply cached_with_doc_entry.
    - exists [Decode k map_field s]. split.
      + unfold with_doc_entry. by case_bool_decide.
      + intros e ->%list_elem_of_singleton. cbn. set_solver. }
  destruct (JSON_parse s) as [parsed|]; [|exact Hlogged].
  cbn [snd]. destruct Hlogged as (? & ? & ? & Hcache & Hlog).
  split_and!; [done..| |done].
  intros k' mf Hother. rewrite cached_store_map.
  rewrite decide_False; [by apply Hcache|].
  intros [-> ->]. destruct Hother as [?|Hmf]; [done|]. set_solver.
Qed.

Lemma map_outcome_sound (this : response) (k map_field item_key : string)
    (doc : value) :
  cache_sound JSON_parse this →
  resolved this k = Some (Ok doc) →
  (map_outcome JSON_parse this k map_field item_key (doc_field doc map_field)).1
  = map_label JSON_parse doc map_field item_key ∧
  cache_sound JSON_parse
    (map_outcome JSON_parse this k map_field item_key (doc_field doc map_field)).2.
Proof.
  intros Hsound Hres.
  pose proof (map_outcome_touches this k map_field item_key (doc_field doc map_field))
    as (Hraw & Hindex & _ & Hcache & _).
  revert Hraw Hindex Hcache. unfold map_outcome, map_label.
  destruct (doc_field doc map_field) as [[| | | s | |]|] eqn:Hfield; try done.
  destruct (String.eqb s ""); [done|].
  destruct (cached this k map_field) as [parsed|] eqn:Hcached.
  - intros _ _ _. split; [|done].
    destruct (Hsound k map_field parsed Hcached) as (doc' & s' & Hres' & Hfield' & Hparse).
    rewrite Hres in Hres'. injection Hres' as <-.
    rewrite Hfield in Hfield'. injection Hfield' as <-. by rewrite Hparse.
  - destruct (JSON_parse s) as [parsed|] eqn:Hparse; cbn [fst snd];
      intros Hraw Hindex Hcache; (split; [done|]).
    + intros k' mf parsed'. rewrite cached_store_map.
      rewrite (resolved_same_index _ _ _ Hraw Hindex).
      case_decide as Hsame.
      * destruct Hsame as [-> ->]. intros [= <-]. eauto.
      * rewrite cached_log_decode, cached_with_doc_entry. apply Hsound.
    + intros k' mf parsed'. rewrite (resolved_same_index _ _ _ Hraw Hindex).
      rewrite cached_log_decode, cached_with_doc_entry. apply Hsound.
Qed.

End map_outcome.

#[local] Instance keeps_preorder (I : response → Prop) : PreOrder (keeps I).
Proof. split; unfold keeps; [by intros this|intros a b c; tauto]. Qed.

(** ** get_doc_label and get_doc_highlight, step by step *)

Lemma get_doc_highlight_steps (R : relation response) `{!PreOrder R}
    (doc_id : value) (field_id : string) (item : value) :
  (∀ k, steps R (get_doc k)) →
  steps R (get_doc_highlight doc_id field_id item).
Proof.
  intros Hdoc. unfold get_doc_highlight.
  apply steps_bind; [done|by apply steps_read|]. intros robj.
  apply steps_bind; [done|by apply steps_lift|]. intros highlighting.
  apply steps_bind; [done|by apply steps_lift|]. intros direct.
  apply steps_bind; [done| |].
  - destruct (truthy highlighting && truthy direct); [by apply steps_ret|].
    apply steps_bind; [done|by apply steps_read|]. intros [index|];
      [|by apply steps_throw].
    destruct (truthy (prop index (to_string doc_id))); [|by apply steps_ret].
    apply steps_bind; [done..|]. intros new_doc.
    apply steps_bind; [done|by apply steps_lift|]. intros new_doc_id.
    apply steps_bind; [done|by apply steps_lift|]. intros by_id.
    destruct (truthy highlighting && truthy by_id); by apply steps_ret.
  - intros hilite_obj. destruct (truthy hilite_obj); [|by apply steps_ret].
    apply steps_bind; [done|by apply steps_lift|]. intros a1.
    apply steps_bind; [done|by apply steps_lift|]. intros a2.
    apply steps_bind; [done|by apply steps_lift|]. intros a3.
    apply steps_bind; [done|by apply steps_lift|]. intros a4.
    destruct (truthy (if truthy a4 then a4 else null));
      [by apply steps_lift|by apply steps_ret].
Qed.

Section get_doc_label_steps.

Variable JSON_parse : string → option json.

Lemma get_doc_label_steps (R : relation response) `{!PreOrder R}
    (doc_id : value) (field_id : string) (item_id : value) :
  (∀ k, steps R (get_doc k)) →
  (∀ k map_field item_key, steps R (_map_to_try JSON_parse k map_field item_key)) →
  steps R (get_doc_label JSON_parse doc_id field_id item_id).
Proof.
  intros Hdoc Hmap. unfold get_doc_label.
  apply steps_bind; [done..|]. intros doc.
  apply steps_bind; [done|by apply steps_lift|]. intros present.
  destruct (truthy doc && bool_decide (is_Some present)); [|by apply steps_ret].
  apply steps_bind; [done|by apply get_doc_field_steps|]. intros ilabel.
  destruct (truthy ilabel && is_str (what_is ilabel) "string");
    [by apply steps_ret|].
  destruct (truthy ilabel && is_str (what_is ilabel) "array");
    [|by apply steps_ret].
  apply steps_bind; [done|by apply get_doc_field_steps|]. intros iid.
  apply steps_bind; [done|by apply steps_lift|]. intros ilabel_length.
  apply steps_bind; [done|by apply steps_lift|]. intros iid_length.
  destruct (is_num ilabel_length 1 && truthy iid && is_str (what_is iid) "array"
            && is_num iid_length 1); [by apply steps_lift|].
  apply steps_bind; [done..|]. intros mlabel.
  destruct (truthy mlabel); [by apply steps_ret|].
  apply steps_bind; [done..|]. intros cmlabel.
  destruct (truthy cmlabel); [by apply steps_ret|].
  apply steps_bind; [done..|]. intros lmlabel.
  destruct (truthy lmlabel); by apply steps_ret.
Qed.

(** *** Soundness of the cache in every reachable receiver *)

Lemma get_doc_keeps_sound (doc_id : value) :
  steps (keeps (cache_sound JSON_parse)) (get_doc doc_id).
Proof.
  intros this Hsound k mf parsed Hcached.
  pose proof (get_doc_index_only doc_id this) as (_ & Hmaps & _).
  pose proof (get_doc_grows doc_id this) as Hgrows.
  unfold cached in Hcached. rewrite Hmaps in Hcached.
  destruct (Hsound k mf parsed Hcached) as (doc & s & Hres & Hfield & Hparse).
  exists doc, s. split_and!; [|done..]. by eapply resolved_grows.
Qed.

Lemma map_to_try_keeps_sound (doc_key : value) (map_field : string)
    (item_key : value) :
  steps (keeps (cache_sound JSON_parse))
    (_map_to_try JSON_parse doc_key map_field item_key).
Proof.
  intros this Hsound.
  pose proof (get_doc_field_steps _ doc_key map_field
                (get_doc_keeps_sound doc_key) this Hsound) as Hsound1.
  destruct (get_doc_field doc_key map_field this) as [[map_str|e] this1] eqn:Hfield.
  - rewrite (map_to_try_outcome _ _ _ _ _ _ _ Hfield).
    apply get_doc_field_inv in Hfield as (doc & Hdoc & ->).
    apply get_doc_settles in Hdoc.
    by apply map_outcome_sound.
  - by rewrite (map_to_try_throw _ _ _ _ _ _ _ Hfield).
Qed.

Lemma reachable_cache_sound (json_data : value) (this : response) :
  reachable JSON_parse json_data this → cache_sound JSON_parse this.
Proof.
  induction 1 as [|this doc_id _ IH|this doc_id field_id _ IH
                   |this doc_id field_id item_id _ IH
                   |this doc_id field_id item _ IH].
  - intros k mf parsed. unfold cached. cbn. by rewrite lookup_empty.
  - by apply get_doc_keeps_sound.
  - by apply (get_doc_field_steps _ _ _ (get_doc_keeps_sound doc_id)).
  - apply (get_doc_label_steps (keeps (cache_sound JSON_parse))); [| |done].
    + apply get_doc_keeps_sound.
    + apply map_to_try_keeps_sound.
  - apply (get_doc_highlight_steps (keeps (cache_sound JSON_parse))); [|done].
    apply get_doc_keeps_sound.
Qed.

End get_doc_label_steps.

(** ** Array length and decimal keys *)

Lemma append_assoc (a b c : string) : (a ++ b) ++ c = a ++ (b ++ c).
Proof.
  induction a as [|x a IH]; [done|].
  change (String x ((a ++ b) ++ c) = String x (a ++ b ++ c)). by rewrite IH.
Qed.

Lemma pretty_N_go_suffix (x : N) (s : string) : ∃ p, pretty_N_go x s = p ++ s.
Proof.
  revert s. induction (N.lt_wf_0 x) as [x _ IH]; intros s.
  destruct (decide (x = 0)%N) as [->|Hx].
  - exists "". by rewrite pretty_N_go_0.
  - rewrite pretty_N_go_step by lia.
    destruct (IH (x `div` 10)%N) with (s := String (pretty_N_char (x `mod` 10)) s)
      as [p Hp]; [apply N.div_lt; lia|].
    exists (p ++ String (pretty_N_char (x `mod` 10)) ""). by rewrite Hp, append_assoc.
Qed.

Lemma pretty_nat_last_digit (n : nat) :
  ∃ p y, pretty n = p ++ String (pretty_N_char y) "".
Proof.
  unfold pretty, pretty_nat, pretty, pretty_N.
  destruct (decide (N.of_nat n = 0)%N) as [_|Hn].
  - by exists "", 0%N.
  - rewrite pretty_N_go_step by lia.
    destruct (pretty_N_go_suffix (N.of_nat n `div` 10)
                (String (pretty_N_char (N.of_nat n `mod` 10)) "")) as [p Hp].
    eauto.
Qed.

Lemma pretty_nat_not_length (n : nat) : pretty n ≠ "length".
Proof.
  destruct (pretty_nat_last_digit n) as (p & y & ->). intros Heq.
  assert (Hlen : String.length p = 5).
  { apply (f_equal String.length) in Heq. rewrite length_append in Heq.
    cbn in Heq. lia. }
  pose proof (get_append_end p (pretty_N_char y) "") as Hget.
  rewrite Heq, Hlen in Hget. cbn in Hget. injection Hget as Hget.
  revert Hget. unfold pretty_N_char. by repeat case_match.
Qed.

Lemma index_of_key_length (len : nat) : index_of_key "length" len = None.
Proof.
  unfold index_of_key. 
  destruct (list_find _ _) as [[i x]|] eqn:Hfind; [|done].
  apply list_find_Some in Hfind as (_ & Hkey & _).
  by destruct (pretty_nat_not_length x).
Qed.

Lemma get_array_length (l : list json) :
  get (Some (JArr l)) "length" = Ok (Some (JNum (Z.of_nat (length l)))).
Proof. cbn [get]. by rewrite index_of_key_length. Qed.

(** ** The plan of get_doc_label *)

Section label_plan.

Variable JSON_parse : string → option json.

Lemma get_doc_label_plan (doc_id : value) (field_id : string) (item_id : value)
    (this this1 : response) (doc : value) :
  get_doc doc_id this = (Ok doc, this1) →
  get_doc_label JSON_parse doc_id field_id item_id this
  = match label_plan doc field_id with
    | Return label => (Ok label, this1)
    | Probe => probe_maps JSON_parse doc_id field_id item_id this1
    end.
Proof.
  intros Hdoc. pose proof (get_doc_settles _ _ _ _ Hdoc) as Hres.
  unfold get_doc_label. rewrite (bind_Ok _ _ _ _ _ Hdoc).
  unfold label_plan, has_field.
  destruct (truthy doc) eqn:Htruthy; [|done].
  destruct (get_truthy_Ok doc field_id Htruthy) as [present Hpresent].
  unfold bind at 1, lift at 1. rewrite Hpresent. cbn [andb].
  destruct present as [x|]; [|by rewrite bool_decide_false by (by intros [? ?])].
  rewrite bool_decide_true by eauto.
  rewrite (bind_Ok _ _ _ _ _ (get_doc_field_resolved _ (field_id ++ "_label") _ _ Hres)).
  rewrite truthy_string, truthy_array.
  destruct (doc_field doc (field_id ++ "_label")) as [[| | | s | labels |]|];
    try reflexivity.
  { by destruct (String.eqb s ""). }
  rewrite (bind_Ok _ _ _ _ _ (get_doc_field_resolved _ field_id _ _ Hres)).
  unfold bind at 1, lift at 1. rewrite get_array_length.
  unfold bind at 1, lift at 1. rewrite <- !andb_assoc, truthy_array.
  destruct (doc_field doc field_id) as [[| | | | ids |]|];
    try (rewrite andb_false_r; by destruct labels as [|? [|]]).
  rewrite get_array_length. cbn [is_num andb].
  destruct labels as [|label [|label2 labels]].
  - reflexivity.
  - destruct ids as [|i1 [|i2 ids]]; [reflexivity..|].
    replace (Z.of_nat (length (i1 :: i2 :: ids)) =? 1)%Z with false;
      [by rewrite andb_false_r|].
    symmetry. apply Z.eqb_neq. cbn [length]. lia.
  - replace (Z.of_nat (length (label :: label2 :: labels)) =? 1)%Z with false;
      [by destruct ids as [|i1 [|i2 ids]]|].
    symmetry. apply Z.eqb_neq. cbn [length]. lia.
Qed.

End label_plan.
(** ** Probing the maps *)

Section probing.

Variable JSON_parse : string → option json.

Lemma map_to_try_sound (doc_key : value) (map_field : string) (item_key : value)
    (this : response) (doc : value) :
  cache_sound JSON_parse this →
  resolved this (to_string doc_key) = Some (Ok doc) →
  ∃ this',
    _map_to_try JSON_parse doc_key map_field item_key this
    = (map_label JSON_parse doc map_field (to_string item_key), this') ∧
    cache_sound JSON_parse this' ∧
    resolved this' (to_string doc_key) = Some (Ok doc) ∧
    touches (to_string doc_key) [map_field] this this'.
Proof.
  intros Hsound Hres.
  rewrite (map_to_try_outcome _ _ _ _ _ _ _
             (get_doc_field_resolved _ map_field _ _ Hres)).
  pose proof (map_outcome_sound JSON_parse this (to_string doc_key) map_field
                (to_string item_key) doc Hsound Hres) as [Hlabel Hsound'].
  pose proof (map_outcome_touches JSON_parse this (to_string doc_key) map_field
                (to_string item_key) (doc_field doc map_field)) as Htouch.
  destruct (map_outcome _ _ _ _ _ _) as [r this']. cbn [fst snd] in *. subst r.
  exists this'. split_and!; [done..| |done].
  destruct Htouch as (Hraw & Hindex & _).
  by rewrite (resolved_same_index _ _ _ Hraw Hindex).
Qed.

Lemma map_label_throws (doc : value) (map_field item_key : string) (e : error) :
  map_label JSON_parse doc map_field item_key = Throw e → e = SyntaxError.
Proof.
  unfold map_label.
  destruct (doc_field doc map_field) as [[| | | s | |]|]; try done.
  destruct (String.eqb s ""); [done|].
  by destruct (JSON_parse s); intros [= <-].
Qed.

(** The probing tail returns the first label found along the three map
    fields and touches the cache entries of the fields it looked at,
    and of no other. *)
Lemma probe_maps_sound (doc_id : value) (field_id : string) (item_id : value)
    (this : response) (doc : value) :
  cache_sound JSON_parse this →
  resolved this (to_string doc_id) = Some (Ok doc) →
  ∃ this',
    probe_maps JSON_parse doc_id field_id item_id this
    = (first_found JSON_parse doc field_id (to_string item_id) map_suffixes, this') ∧
    touches (to_string doc_id)
      (consulted JSON_parse doc field_id (to_string item_id) map_suffixes)
      this this'.
Proof.
  intros Hsound Hres. unfold probe_maps, map_suffixes.
  cbn [first_found consulted].
  destruct (map_to_try_sound doc_id (field_id ++ "_map") item_id this doc Hsound Hres)
    as (this1 & Hrun1 & Hsound1 & Hres1 & Htouch1).
  destruct (map_label JSON_parse doc (field_id ++ "_map") (to_string item_id))
    as [mlabel|e].
  2: { rewrite (bind_Throw _ _ _ _ _ Hrun1). by exists this1. }
  rewrite (bind_Ok _ _ _ _ _ Hrun1). cbn [rbind].
  destruct (truthy mlabel); [by exists this1|].
  destruct (map_to_try_sound doc_id (field_id ++ "_closure_map") item_id this1 doc
              Hsound1 Hres1) as (this2 & Hrun2 & Hsound2 & Hres2 & Htouch2).
  pose proof (touches_trans _ _ _ _ _ _ Htouch1 Htouch2) as Htouch12.
  destruct (map_label JSON_parse doc (field_id ++ "_closure_map") (to_string item_id))
    as [cmlabel|e].
  2: { rewrite (bind_Throw _ _ _ _ _ Hrun2). by exists this2. }
  rewrite (bind_Ok _ _ _ _ _ Hrun2). cbn [rbind].
  destruct (truthy cmlabel); [by exists this2|].
  destruct (map_to_try_sound doc_id (field_id ++ "_list_map") item_id this2 doc
              Hsound2 Hres2) as (this3 & Hrun3 & Hsound3 & Hres3 & Htouch3).
  pose proof (touches_trans _ _ _ _ _ _ Htouch12 Htouch3) as Htouch123.
  destruct (map_label JSON_parse doc (field_id ++ "_list_map") (to_string item_id))
    as [lmlabel|e].
  2: { rewrite (bind_Throw _ _ _ _ _ Hrun3). by exists this3. }
  rewrite (bind_Ok _ _ _ _ _ Hrun3). cbn [rbind].
  exists this3. by destruct (truthy lmlabel).
Qed.

(** A label that comes out of the maps is truthy. *)
Lemma map_to_try_truthy (doc_key : value) (map_field : string) (item_key : value)
    (this this' : response) (label : value) :
  _map_to_try JSON_parse doc_key map_field item_key this = (Ok label, this') →
  label = null ∨ truthy label = true.
Proof.
  destruct (get_doc_field doc_key map_field this) as [[map_str|e] this1] eqn:Hfield.
  2: { by rewrite (map_to_try_throw _ _ _ _ _ _ _ Hfield). }
  rewrite (map_to_try_outcome _ _ _ _ _ _ _ Hfield). unfold map_outcome.
  assert (Hprobe : ∀ map k, probe map k = null ∨ truthy (probe map k) = true).
  { intros map k. unfold probe.
    destruct (if truthy map then get map k else Ok undefined) as [hit|]; [|by left].
    destruct (truthy map && truthy hit) eqn:Hhit; [right|by left].
    by apply andb_true_iff in Hhit as [_ ?]. }
  destruct map_str as [[| | | s | |]|]; try (intros [= <- _]; by left).
  destruct (String.eqb s ""); [intros [= <- _]; by left|].
  destruct (cached this1 _ _); [intros [= <- _]; apply Hprobe|].
  destruct (JSON_parse s); [intros [= <- _]; apply Hprobe|done].
Qed.

Lemma probe_maps_truthy (doc_id : value) (field_id : string) (item_id : value)
    (this this' : response) (label : value) :
  probe_maps JSON_parse doc_id field_id item_id this = (Ok label, this') →
  label = null ∨ truthy label = true.
Proof.
  unfold probe_maps. intros Hrun.
  apply bind_inv in Hrun as [(mlabel & this1 & _ & Hrun)|(? & _ & [=])].
  destruct (truthy mlabel) eqn:Hm; [injection Hrun as <- _; by right|].
  apply bind_inv in Hrun as [(cmlabel & this2 & _ & Hrun)|(? & _ & [=])].
  destruct (truthy cmlabel) eqn:Hc; [injection Hrun as <- _; by right|].
  apply bind_inv in Hrun as [(lmlabel & this3 & _ & Hrun)|(? & _ & [=])].
  destruct (truthy lmlabel) eqn:Hl; injection Hrun as <- _; [by right|by left].
Qed.

End probing.
(** ** get_doc_label: the claims *)

Section label_claims.

Variable JSON_parse : string → option json.

Lemma doc_field_object (doc : gmap string json) (field_id : string) :
  doc_field (Some (JObj doc)) field_id
  = match doc !! field_id with
    | Some x => Some x
    | None => null
    end.
Proof. reflexivity. Qed.

(** C7 (amended): when the document that [doc_id] denotes contains
    [field_id] and its [field_id + "_label"] is a non-empty scalar
    string, [get_doc_label] returns that string verbatim; no map is
    decoded and the label cache is left as it was. *)
Theorem scalar_label_verbatim (this this1 : response) (doc_id : value)
    (field_id : string) (item_id : value) (doc : gmap string json)
    (label : string) :
  get_doc doc_id this = (Ok (Some (JObj doc)), this1) →
  is_Some (doc !! field_id) →
  doc !! (field_id ++ "_label") = Some (JStr label) →
  label ≠ "" →
  get_doc_label JSON_parse doc_id field_id item_id this
  = (Ok (Some (JStr label)), this1) ∧
  decodes this1 = decodes this ∧
  _doc_label_maps this1 = _doc_label_maps this.
Proof.
  intros Hdoc [x Hfield] Hlabel Hne.
  pose proof (get_doc_index_only doc_id this) as (_ & Hmaps & Hlog & _).
  rewrite Hdoc in Hmaps, Hlog. cbn [snd] in Hmaps, Hlog.
  split_and!; [|done..].
  rewrite (get_doc_label_plan _ _ _ _ _ _ _ Hdoc).
  unfold label_plan, has_field. cbn [truthy get andb]. rewrite Hfield.
  rewrite doc_field_object, Hlabel.
  apply String.eqb_neq in Hne. by rewrite Hne.
Qed.

End label_claims.

Lemma scalar_label_verbatim_witness :
  get_doc_label parse_flat (Some (JStr "d2")) "taxon" (Some (JStr "NCBITaxon:9606"))
    sample_response
  = (Ok (Some (JStr "Homo sapiens")),
     (get_doc (Some (JStr "d2")) sample_response).2).
Proof.
  refine (proj1 (scalar_label_verbatim parse_flat sample_response
                   (get_doc (Some (JStr "d2")) sample_response).2
                   (Some (JStr "d2")) "taxon" (Some (JStr "NCBITaxon:9606"))
                   (list_to_map [("id", JStr "d2"); ("taxon", JStr "NCBITaxon:9606");
                                 ("taxon_label", JStr "Homo sapiens")])
                   "Homo sapiens" _ _ _ _)).
  - vm_compute. reflexivity.
  - vm_compute. eauto.
  - vm_compute. reflexivity.
  - discriminate.
Defined.

(** C7 (counterexample): an empty scalar [_label] is not returned; the
    call yields [null]. *)
Lemma scalar_label_empty_is_null :
  (get_doc_label parse_flat (Some (JNum 0)) "taxon" (Some (JStr "NCBITaxon:9606"))
     (response_of doc_blank_label)).1 = Ok null ∧
  ¬ scalar_label_as_specified parse_flat (response_of doc_blank_label)
      (Some (JNum 0)) "taxon" (Some (JStr "NCBITaxon:9606")).
Proof.
  assert (Hrun :
    (get_doc_label parse_flat (Some (JNum 0)) "taxon" (Some (JStr "NCBITaxon:9606"))
       (response_of doc_blank_label)).1 = Ok null) by (vm_compute; reflexivity).
  split; [exact Hrun|]. unfold scalar_label_as_specified. intros Hspec.
  rewrite Hrun in Hspec.
  assert (Ok null = Ok (Some (JStr ""))) as [=].
  apply (Hspec (list_to_map [("id", JStr "d3"); ("taxon", JStr "NCBITaxon:9606");
                             ("taxon_label", JStr "")])
               (response_of doc_blank_label) "").
  - vm_compute. reflexivity.
  - vm_compute. eauto.
  - vm_compute. reflexivity.
Qed.
Section label_claims_probing.

Variable JSON_parse : string → option json.

(** C10 (amended): [get_doc_label] returns the empty string only in the
    single-valued case, when the [_label] value is the one-element
    sequence [[""]] and the raw field is a one-element sequence.  An
    empty scalar [_label] and an empty label in a decoded map are
    misses and are never returned. *)
Theorem empty_label_only_single_valued (this this' : response) (doc_id : value)
    (field_id : string) (item_id : value) :
  get_doc_label JSON_parse doc_id field_id item_id this
  = (Ok (Some (JStr "")), this') →
  ∃ doc this1 x,
    get_doc doc_id this = (Ok doc, this1) ∧
    doc_field doc (field_id ++ "_label") = Some (JArr [JStr ""]) ∧
    doc_field doc field_id = Some (JArr [x]).
Proof.
  intros Hrun.
  destruct (get_doc doc_id this) as [[doc|e] this1] eqn:Hdoc.
  2: { unfold get_doc_label in Hrun. by rewrite (bind_Throw _ _ _ _ _ Hdoc) in Hrun. }
  rewrite (get_doc_label_plan _ _ _ _ _ _ _ Hdoc) in Hrun.
  exists doc, this1. unfold label_plan in Hrun.
  destruct (has_field doc field_id); [|done].
  destruct (doc_field doc (field_id ++ "_label")) as [[| | | s | labels |]|];
    try done.
  - destruct (String.eqb_spec s ""); [done|]. by injection Hrun as -> _.
  - assert (Hprobe : probe_maps JSON_parse doc_id field_id item_id this1
                     ≠ (Ok (Some (JStr "")), this')).
    { intros Hp. by apply probe_maps_truthy in Hp as [[=]|[=]]. }
    destruct labels as [|label [|label2 labels]]; [done| |done].
    destruct (doc_field doc field_id) as [[| | | | [|x [|x2 ids]] |]|]; try done.
    injection Hrun as -> _. eauto.
Qed.

Lemma first_found_cons (doc : value) (field_id item_key suffix : string)
    (rest : list string) :
  first_found JSON_parse doc field_id item_key (suffix :: rest)
  = (let+ label := map_label JSON_parse doc (field_id ++ suffix) item_key in
     if truthy label then Ok label
     else first_found JSON_parse doc field_id item_key rest).
Proof. reflexivity. Qed.

Lemma label_plan_probe (doc : value) (field_id : string) (labels : list json) :
  has_field doc field_id = true →
  doc_field doc (field_id ++ "_label") = Some (JArr labels) →
  ¬ single_valued doc field_id →
  label_plan doc field_id = Probe.
Proof.
  intros Hfield Hlabels Hmany. unfold label_plan. rewrite Hfield, Hlabels.
  destruct labels as [|label [|label2 labels]]; [done| |done].
  destruct (doc_field doc field_id) as [[| | | | [|x [|x2 ids]] |]|] eqn:Hids;
    try done.
  destruct Hmany. exists label, x. by rewrite Hlabels, Hids.
Qed.

(** The probing case of [get_doc_label], from a receiver whose cache is
    sound. *)
Lemma probing_in_order_aux (this this1 : response)
    (doc_id : value) (field_id : string) (item_id : value) (doc : value)
    (labels : list json) :
  cache_sound JSON_parse this →
  get_doc doc_id this = (Ok doc, this1) →
  has_field doc field_id = true →
  doc_field doc (field_id ++ "_label") = Some (JArr labels) →
  ¬ single_valued doc field_id →
  ∃ this',
    get_doc_label JSON_parse doc_id field_id item_id this
    = (first_found JSON_parse doc field_id (to_string item_id) map_suffixes, this') ∧
    touches (to_string doc_id)
      (consulted JSON_parse doc field_id (to_string item_id) map_suffixes)
      this1 this'.
Proof.
  intros Hsound Hdoc Hfield Hlabels Hmany.
  rewrite (get_doc_label_plan _ _ _ _ _ _ _ Hdoc).
  rewrite (label_plan_probe _ _ _ Hfield Hlabels Hmany).
  apply probe_maps_sound.
  - pose proof (get_doc_keeps_sound JSON_parse doc_id this Hsound) as Hsound1.
    by rewrite Hdoc in Hsound1.
  - by eapply get_doc_settles.
Qed.

(** C6 (amended): when the document contains the field, its [_label]
    value is a sequence and the single-valued case does not apply,
    [get_doc_label] returns the first label found for the item along
    [field + "_map"], [field + "_closure_map"], [field + "_list_map"],
    in that order, and touches the cache and the decode log only for the
    map fields up to the hit: the later ones are not consulted. *)
Theorem probing_in_order (json_data : value) (this this1 : response)
    (doc_id : value) (field_id : string) (item_id : value) (doc : value)
    (labels : list json) :
  reachable JSON_parse json_data this →
  get_doc doc_id this = (Ok doc, this1) →
  has_field doc field_id = true →
  doc_field doc (field_id ++ "_label") = Some (JArr labels) →
  ¬ single_valued doc field_id →
  ∃ this',
    get_doc_label JSON_parse doc_id field_id item_id this
    = (first_found JSON_parse doc field_id (to_string item_id) map_suffixes, this') ∧
    touches (to_string doc_id)
      (consulted JSON_parse doc field_id (to_string item_id) map_suffixes)
      this1 this'.
Proof.
  intros Hreach Hdoc Hfield Hlabels Hmany.
  eapply probing_in_order_aux; [by eapply reachable_cache_sound|done..].
Qed.

(** C8 (amended): when probing reaches a map field that holds a
    non-empty string which is not valid JSON, that is when no earlier
    map field yields a label, [get_doc_label] fails with the decoder's
    [SyntaxError]. *)
Theorem malformed_map_propagates (json_data : value) (this this1 : response)
    (doc_id : value) (field_id : string) (item_id : value) (doc : value)
    (labels : list json) (i : nat) (suffix s : string) :
  reachable JSON_parse json_data this →
  get_doc doc_id this = (Ok doc, this1) →
  has_field doc field_id = true →
  doc_field doc (field_id ++ "_label") = Some (JArr labels) →
  ¬ single_valued doc field_id →
  map_suffixes !! i = Some suffix →
  doc_field doc (field_id ++ suffix) = Some (JStr s) →
  s ≠ "" →
  JSON_parse s = None →
  (∀ j earlier label,
     j < i → map_suffixes !! j = Some earlier →
     map_label JSON_parse doc (field_id ++ earlier) (to_string item_id) = Ok label →
     truthy label = false) →
  ∃ this',
    get_doc_label JSON_parse doc_id field_id item_id this
    = (Throw SyntaxError, this').
Proof.
  intros Hreach Hdoc Hfield Hlabels Hmany Hi Hmap Hne Hparse Hearlier.
  destruct (probing_in_order_aux this this1 doc_id field_id item_id doc labels)
    as (this' & -> & _); [by eapply reachable_cache_sound|done..|].
  exists this'. f_equal.
  assert (Hbroken :
    map_label JSON_parse doc (field_id ++ suffix) (to_string item_id)
    = Throw SyntaxError).
  { unfold map_label. rewrite Hmap. apply String.eqb_neq in Hne.
    by rewrite Hne, Hparse. }
  assert (Hskip : ∀ j earlier rest,
    j < i → map_suffixes !! j = Some earlier →
    (let+ label := map_label JSON_parse doc (field_id ++ earlier) (to_string item_id) in
     if truthy label then Ok label else rest) = Throw SyntaxError ∨
    (let+ label := map_label JSON_parse doc (field_id ++ earlier) (to_string item_id) in
     if truthy label then Ok label else rest) = rest).
  { intros j earlier rest Hj Hjth.
    destruct (map_label JSON_parse doc (field_id ++ earlier) (to_string item_id))
      as [label|e] eqn:Hlabel.
    - right. cbn [rbind]. by rewrite (Hearlier j earlier label Hj Hjth Hlabel).
    - left. apply map_label_throws in Hlabel as ->. done. }
  unfold map_suffixes in *.
  destruct i as [|[|[|i]]]; cbn in Hi; [| | |done]; injection Hi as <-.
  - by rewrite first_found_cons, Hbroken.
  - rewrite first_found_cons.
    destruct (Hskip 0 "_map" (first_found JSON_parse doc field_id
                (to_string item_id) ["_closure_map"; "_list_map"]))
      as [-> | ->]; [lia|done|done|].
    by rewrite first_found_cons, Hbroken.
  - rewrite first_found_cons.
    destruct (Hskip 0 "_map" (first_found JSON_parse doc field_id
                (to_string item_id) ["_closure_map"; "_list_map"]))
      as [-> | ->]; [lia|done|done|].
    rewrite first_found_cons.
    destruct (Hskip 1 "_closure_map" (first_found JSON_parse doc field_id
                (to_string item_id) ["_list_map"]))
      as [-> | ->]; [lia|done|done|].
    by rewrite first_found_cons, Hbroken.
Qed.

End label_claims_probing.
Lemma empty_label_only_single_valued_witness :
  ∃ doc this1 x,
    get_doc (Some (JNum 0)) (response_of doc_blank_single) = (Ok doc, this1) ∧
    doc_field doc ("cls" ++ "_label") = Some (JArr [JStr ""]) ∧
    doc_field doc "cls" = Some (JArr [x]).
Proof.
  apply (empty_label_only_single_valued parse_flat
           (response_of doc_blank_single) (response_of doc_blank_single)
           (Some (JNum 0)) "cls" (Some (JStr "GO:1"))).
  vm_compute. reflexivity.
Defined.

(** C10 (counterexample): a one-element label sequence holding the
    empty string, next to a one-element field, is returned as it is. *)
Lemma single_empty_label_returned :
  (get_doc_label parse_flat (Some (JNum 0)) "cls" (Some (JStr "GO:1"))
     (response_of doc_blank_single)).1 = Ok (Some (JStr "")) ∧
  ¬ never_empty_as_specified parse_flat (response_of doc_blank_single)
      (Some (JNum 0)) "cls" (Some (JStr "GO:1")).
Proof.
  assert (Hrun :
    (get_doc_label parse_flat (Some (JNum 0)) "cls" (Some (JStr "GO:1"))
       (response_of doc_blank_single)).1 = Ok (Some (JStr "")))
    by (vm_compute; reflexivity).
  split; [exact Hrun|]. intros Hspec. exact (Hspec Hrun).
Qed.

Lemma probing_in_order_witness :
  (get_doc_label parse_flat (Some (JStr "d1")) "cls" (Some (JStr "GO:2"))
     sample_response).1 = Ok (Some (JStr "two")).
Proof.
  destruct (probing_in_order parse_flat (_raw sample_response) sample_response
              (get_doc (Some (JStr "d1")) sample_response).2
              (Some (JStr "d1")) "cls" (Some (JStr "GO:2")) (Some doc_classes)
              [JStr "one"; JStr "two"]) as (this' & Hrun & _).
  - apply reachable_new.
  - vm_compute. reflexivity.
  - reflexivity.
  - reflexivity.
  - intros (label & x & Hlabel & _). vm_compute in Hlabel. discriminate Hlabel.
  - rewrite Hrun. vm_compute. reflexivity.
Defined.

(** C6 (counterexample): a field without a [_label] value is neither a
    scalar string nor single-valued, yet its maps are not probed: the
    call returns [null] although [cls_map] holds a label for the item. *)
Lemma unlabelled_field_not_probed :
  (get_doc_label parse_flat (Some (JNum 0)) "cls" (Some (JStr "GO:1"))
     (response_of doc_unlabelled)).1 = Ok null ∧
  first_found parse_flat (Some doc_unlabelled) "cls" "GO:1" map_suffixes
  = Ok (Some (JStr "one")) ∧
  ¬ probing_as_specified parse_flat (response_of doc_unlabelled)
      (Some (JNum 0)) "cls" (Some (JStr "GO:1")).
Proof.
  assert (Hrun :
    (get_doc_label parse_flat (Some (JNum 0)) "cls" (Some (JStr "GO:1"))
       (response_of doc_unlabelled)).1 = Ok null) by (vm_compute; reflexivity).
  assert (Hfound :
    first_found parse_flat (Some doc_unlabelled) "cls" "GO:1" map_suffixes
    = Ok (Some (JStr "one"))) by (vm_compute; reflexivity).
  split_and!; [exact Hrun|exact Hfound|].
  unfold probing_as_specified. intros Hspec.
  rewrite Hrun in Hspec.
  assert (Ok null = Ok (Some (JStr "one"))) as [=].
  rewrite <- Hfound.
  apply (Hspec (Some doc_unlabelled) (response_of doc_unlabelled)).
  - vm_compute. reflexivity.
  - reflexivity.
  - intros s Hlabel. vm_compute in Hlabel. discriminate Hlabel.
  - intros (label & x & Hlabel & _). vm_compute in Hlabel. discriminate Hlabel.
Qed.

Lemma malformed_map_propagates_witness :
  ∃ this',
    get_doc_label parse_flat (Some (JNum 0)) "cls" (Some (JStr "GO:1"))
      (response_of doc_broken_map)
    = (Throw SyntaxError, this').
Proof.
  apply (malformed_map_propagates parse_flat (_raw (response_of doc_broken_map))
           (response_of doc_broken_map) (response_of doc_broken_map)
           (Some (JNum 0)) "cls" (Some (JStr "GO:1")) (Some doc_broken_map)
           [JStr "one"; JStr "two"] 0 "_map" "{").
  - apply reachable_new.
  - vm_compute. reflexivity.
  - reflexivity.
  - reflexivity.
  - intros (label & x & Hlabel & _). vm_compute in Hlabel. discriminate Hlabel.
  - reflexivity.
  - reflexivity.
  - discriminate.
  - reflexivity.
  - intros j earlier label Hj. lia.
Defined.

(** C8 (counterexample): a map field holding the empty string is a
    string that is not valid JSON, yet it is skipped and the call
    returns [null]. *)
Lemma empty_map_string_skipped :
  (get_doc_label parse_flat (Some (JNum 0)) "cls" (Some (JStr "GO:1"))
     (response_of doc_blank_map)).1 = Ok null ∧
  ¬ malformed_as_specified parse_flat (response_of doc_blank_map)
      (Some (JNum 0)) "cls" (Some (JStr "GO:1")).
Proof.
  assert (Hrun :
    (get_doc_label parse_flat (Some (JNum 0)) "cls" (Some (JStr "GO:1"))
       (response_of doc_blank_map)).1 = Ok null) by (vm_compute; reflexivity).
  split; [exact Hrun|]. unfold malformed_as_specified. intros Hspec.
  rewrite Hrun in Hspec.
  assert (Ok null = Throw SyntaxError) as [=].
  apply (Hspec (Some doc_blank_map) (response_of doc_blank_map)
               [JStr "one"; JStr "two"] "").
  - vm_compute. reflexivity.
  - reflexivity.
  - reflexivity.
  - intros (label & x & Hlabel & _). vm_compute in Hlabel. discriminate Hlabel.
  - reflexivity.
  - reflexivity.
Qed.
(** ** One decode per cache key *)

Section decode_once.

Variable JSON_parse : string → option json.

Lemma decode_inv_ext (this this' : response) :
  decodes this' = decodes this →
  _doc_label_maps this' = _doc_label_maps this →
  decode_inv JSON_parse this → decode_inv JSON_parse this'.
Proof.
  unfold decode_inv, decoded, cached. by intros -> ->.
Qed.

Lemma get_doc_keeps_decode_inv (doc_id : value) :
  steps (keeps (decode_inv JSON_parse)) (get_doc doc_id).
Proof.
  intros this. pose proof (get_doc_index_only doc_id this) as (_ & Hmaps & Hlog & _).
  unfold keeps. by apply decode_inv_ext.
Qed.

Lemma decoded_log_decode (this : response) (e : decode) :
  decoded JSON_parse (log_decode e this)
  = (decoded JSON_parse this ++
     if decide (is_Some (JSON_parse (decode_input e)))
     then [(decode_doc_key e, decode_map_field e)] else [])%list.
Proof.
  unfold decoded. cbn [log_decode decodes].
  rewrite filter_app, fmap_app. f_equal.
  rewrite filter_cons, filter_nil. by case_decide.
Qed.

Lemma map_outcome_keeps_decode_inv (this : response)
    (k map_field item_key : string) (map_str : value) :
  decode_inv JSON_parse this →
  decode_inv JSON_parse
    (map_outcome JSON_parse this k map_field item_key map_str).2.
Proof.
  intros [Hnodup Hcached]. unfold map_outcome.
  destruct map_str as [[| | | s | |]|]; try done.
  destruct (String.eqb s ""); [done|].
  destruct (cached this k map_field) as [parsed|] eqn:Hmiss; [done|].
  assert (Hentry : decoded JSON_parse (with_doc_entry k this)
                   = decoded JSON_parse this).
  { unfold with_doc_entry. by case_bool_decide. }
  destruct (JSON_parse s) as [parsed|] eqn:Hparse; cbn [snd].
  - assert (Hdecoded :
      decoded JSON_parse
        (store_map k map_field parsed
           (log_decode (Decode k map_field s) (with_doc_entry k this)))
      = (decoded JSON_parse this ++ [(k, map_field)])%list).
    { change (decoded JSON_parse (store_map ?a ?b ?c ?t))
        with (decoded JSON_parse t).
      rewrite decoded_log_decode, Hentry. cbn [decode_input].
      rewrite decide_True; [done|by rewrite Hparse]. }
    split.
    + rewrite Hdecoded. apply NoDup_app. split_and!; [done| |apply NoDup_singleton].
      intros km Hold ->%list_elem_of_singleton.
      destruct (Hcached _ _ Hold) as [? Hhit]. congruence.
    + intros k' mf. rewrite Hdecoded, cached_store_map.
      case_decide; [by eauto|].
      rewrite cached_log_decode, cached_with_doc_entry.
      intros [Hold|[= -> ->]%list_elem_of_singleton]%elem_of_app;
        [by apply Hcached|].
      naive_solver.
  - assert (Hdecoded :
      decoded JSON_parse (log_decode (Decode k map_field s) (with_doc_entry k this))
      = decoded JSON_parse this).
    { rewrite decoded_log_decode, Hentry. cbn [decode_input].
      rewrite decide_False; [by rewrite app_nil_r|]. rewrite Hparse. by intros [? ?]. }
    split; [by rewrite Hdecoded|].
    intros k' mf. rewrite Hdecoded, cached_log_decode, cached_with_doc_entry.
    apply Hcached.
Qed.

Lemma map_to_try_keeps_decode_inv (doc_key : value) (map_field : string)
    (item_key : value) :
  steps (keeps (decode_inv JSON_parse))
    (_map_to_try JSON_parse doc_key map_field item_key).
Proof.
  intros this Hinv.
  pose proof (get_doc_field_steps _ doc_key map_field
                (get_doc_keeps_decode_inv doc_key) this Hinv) as Hinv1.
  destruct (get_doc_field doc_key map_field this) as [[map_str|e] this1] eqn:Hfield.
  - rewrite (map_to_try_outcome _ _ _ _ _ _ _ Hfield).
    by apply map_outcome_keeps_decode_inv.
  - by rewrite (map_to_try_throw _ _ _ _ _ _ _ Hfield).
Qed.

Lemma reachable_decode_inv (json_data : value) (this : response) :
  reachable JSON_parse json_data this → decode_inv JSON_parse this.
Proof.
  induction 1 as [|this doc_id _ IH|this doc_id field_id _ IH
                   |this doc_id field_id item_id _ IH
                   |this doc_id field_id item _ IH].
  - split; [apply NoDup_nil_2|]. intros k mf Hin. by apply elem_of_nil in Hin.
  - by apply get_doc_keeps_decode_inv.
  - by apply (get_doc_field_steps _ _ _ (get_doc_keeps_decode_inv doc_id)).
  - apply (get_doc_label_steps JSON_parse (keeps (decode_inv JSON_parse)));
      [| |done].
    + apply get_doc_keeps_decode_inv.
    + apply map_to_try_keeps_decode_inv.
  - apply (get_doc_highlight_steps (keeps (decode_inv JSON_parse))); [|done].
    apply get_doc_keeps_decode_inv.
Qed.

(** *** What the cache holds *)

Lemma get_doc_keeps_exact (doc_id : value) :
  steps (keeps (cache_exact JSON_parse)) (get_doc doc_id).
Proof.
  intros this Hexact k mf parsed Hcached.
  pose proof (get_doc_index_only doc_id this) as (_ & Hmaps & _).
  pose proof (get_doc_grows doc_id this) as Hgrows.
  unfold cached in Hcached. rewrite Hmaps in Hcached.
  destruct (Hexact k mf parsed Hcached) as (doc & s & Hres & Hfield & Hne & Hparse).
  exists doc, s. split_and!; [|done..]. by eapply resolved_grows.
Qed.

Lemma map_outcome_keeps_exact (this : response) (k map_field item_key : string)
    (doc : value) :
  cache_exact JSON_parse this →
  resolved this k = Some (Ok doc) →
  cache_exact JSON_parse
    (map_outcome JSON_parse this k map_field item_key (doc_field doc map_field)).2.
Proof.
  intros Hexact Hres.
  pose proof (map_outcome_touches JSON_parse this k map_field item_key
                (doc_field doc map_field)) as (Hraw & Hindex & _ & Hcache & _).
  revert Hraw Hindex Hcache. unfold map_outcome.
  destruct (doc_field doc map_field) as [[| | | s | |]|] eqn:Hfield; try done.
  destruct (String.eqb_spec s "") as [->|Hne]; [done|].
  destruct (cached this k map_field) as [parsed|] eqn:Hcached; [done|].
  destruct (JSON_parse s) as [parsed|] eqn:Hparse; cbn [fst snd];
    intros Hraw Hindex Hcache.
  - intros k' mf parsed'. rewrite cached_store_map.
    rewrite (resolved_same_index _ _ _ Hraw Hindex).
    case_decide as Hsame.
    + destruct Hsame as [-> ->]. intros [= <-]. eauto 10.
    + rewrite cached_log_decode, cached_with_doc_entry. apply Hexact.
  - intros k' mf parsed'. rewrite (resolved_same_index _ _ _ Hraw Hindex).
    rewrite cached_log_decode, cached_with_doc_entry. apply Hexact.
Qed.

Lemma map_to_try_keeps_exact (doc_key : value) (map_field : string)
    (item_key : value) :
  steps (keeps (cache_exact JSON_parse))
    (_map_to_try JSON_parse doc_key map_field item_key).
Proof.
  intros this Hexact.
  pose proof (get_doc_field_steps _ doc_key map_field
                (get_doc_keeps_exact doc_key) this Hexact) as Hexact1.
  destruct (get_doc_field doc_key map_field this) as [[map_str|e] this1] eqn:Hfield.
  - rewrite (map_to_try_outcome _ _ _ _ _ _ _ Hfield).
    apply get_doc_field_inv in Hfield as (doc & Hdoc & ->).
    apply get_doc_settles in Hdoc.
    by apply map_outcome_keeps_exact.
  - by rewrite (map_to_try_throw _ _ _ _ _ _ _ Hfield).
Qed.

Lemma reachable_cache_exact (json_data : value) (this : response) :
  reachable JSON_parse json_data this → cache_exact JSON_parse this.
Proof.
  induction 1 as [|this doc_id _ IH|this doc_id field_id _ IH
                   |this doc_id field_id item_id _ IH
                   |this doc_id field_id item _ IH].
  - intros k mf parsed. unfold cached. cbn. by rewrite lookup_empty.
  - by apply get_doc_keeps_exact.
  - by apply (get_doc_field_steps _ _ _ (get_doc_keeps_exact doc_id)).
  - apply (get_doc_label_steps JSON_parse (keeps (cache_exact JSON_parse)));
      [| |done].
    + apply get_doc_keeps_exact.
    + apply map_to_try_keeps_exact.
  - apply (get_doc_highlight_steps (keeps (cache_exact JSON_parse))); [|done].
    apply get_doc_keeps_exact.
Qed.

(** A probe that finds its map in the cache uses it and touches
    nothing. *)
Lemma map_to_try_reuses (this : response) (doc_key : value) (map_field : string)
    (item_key : value) (parsed : json) :
  cache_exact JSON_parse this →
  cached this (to_string doc_key) map_field = Some parsed →
  _map_to_try JSON_parse doc_key map_field item_key this
  = (Ok (probe (Some parsed) (to_string item_key)), this).
Proof.
  intros Hexact Hcached.
  destruct (Hexact _ _ _ Hcached) as (doc & s & Hres & Hfield & Hne & Hparse).
  rewrite (map_to_try_outcome _ _ _ _ _ _ _
             (get_doc_field_resolved _ map_field _ _ Hres)).
  rewrite Hfield. unfold map_outcome.
  apply String.eqb_neq in Hne. by rewrite Hne, Hcached.
Qed.

(** C3 (amended): in every receiver reachable from a fresh response,
    whatever calls were made and whether they succeeded, the successful
    decodes have pairwise distinct cache keys (the document key as the
    caller passed it, and the map field name), and each of them left a
    mapping in the cache under its key.  What the cache holds under a
    key is the decoding of the map string of the document the key
    resolves to; and a probe that finds its map in the cache answers
    from that mapping, decodes nothing and leaves the receiver as it
    is.  So a map string is decoded successfully at most once per
    caller's document key and map field, and reused thereafter. *)
Theorem decoded_once_per_cache_key (json_data : value) (this : response) :
  reachable JSON_parse json_data this →
  NoDup (decoded JSON_parse this) ∧
  (∀ k map_field, (k, map_field) ∈ decoded JSON_parse this →
                  is_Some (cached this k map_field)) ∧
  (∀ k map_field parsed,
     cached this k map_field = Some parsed →
     ∃ doc s, resolved this k = Some (Ok doc) ∧
              doc_field doc map_field = Some (JStr s) ∧
              JSON_parse s = Some parsed) ∧
  (∀ doc_key map_field item_key parsed,
     cached this (to_string doc_key) map_field = Some parsed →
     _map_to_try JSON_parse doc_key map_field item_key this
     = (Ok (probe (Some parsed) (to_string item_key)), this)).
Proof.
  intros Hreach.
  destruct (reachable_decode_inv _ _ Hreach) as [Hnodup Hcached].
  pose proof (reachable_cache_exact _ _ Hreach) as Hexact.
  split_and!; [done..| |].
  - intros k mf parsed Hhit.
    destruct (Hexact _ _ _ Hhit) as (doc & s & Hres & Hfield & _ & Hparse). eauto.
  - intros doc_key mf item_key parsed. by apply map_to_try_reuses.
Qed.

End decode_once.

Lemma decoded_once_per_cache_key_witness :
  NoDup (decoded parse_flat response_asked_twice) ∧
  ∀ k map_field, (k, map_field) ∈ decoded parse_flat response_asked_twice →
                 is_Some (cached response_asked_twice k map_field).
Proof.
  destruct (decoded_once_per_cache_key parse_flat (_raw sample_response)
              response_asked_twice) as (Hnodup & Hcached & _).
  - apply reachable_get_doc_label, reachable_get_doc_label, reachable_new.
  - split; [exact Hnodup|exact Hcached].
Defined.

(** C3 (counterexample): asked for the same document first by position
    and then by identifier, the response decodes [cls_map] twice, once
    under each key. *)
Lemma decoded_twice_for_one_document :
  decoded parse_flat response_asked_twice
  = [("0", "cls_map"); ("0", "cls_closure_map");
     ("d1", "cls_map"); ("d1", "cls_closure_map")] ∧
  resolved response_asked_twice "0" = Some (Ok (Some doc_classes)) ∧
  resolved response_asked_twice "d1" = Some (Ok (Some doc_classes)) ∧
  ¬ decoded_once_per_document parse_flat response_asked_twice.
Proof.
  split_and!; [vm_compute; reflexivity..|].
  intros Hspec.
  apply (Hspec 0 2 (Decode "0" "cls_map" (flat_text [("GO:1", "one")]))
               (Decode "d1" "cls_map" (flat_text [("GO:1", "one")]))).
  - vm_compute. reflexivity.
  - vm_compute. reflexivity.
  - lia.
  - vm_compute. eauto.
  - vm_compute. eauto.
  - reflexivity.
  - vm_compute. reflexivity.
Qed.
(** * Further properties of the accessors *)

(** ** success *)

Lemma success_check_total (this : response) : ∃ verdict, success_check this = Ok verdict.
Proof.
  unfold success_check.
  destruct (truthy (_raw this)) eqn:Hraw; [|eauto].
  destruct (get_truthy_Ok _ "responseHeader" Hraw) as [header ->]. cbn [rbind].
  destruct (truthy header) eqn:Hheader; [|eauto].
  destruct (get_truthy_Ok _ "status" Hheader) as [status ->]. cbn [rbind].
  destruct (bool_decide (is_Some status) && is_num status 0); [|eauto].
  destruct (get_truthy_Ok _ "params" Hheader) as [params ->]. cbn [rbind].
  destruct (truthy params); [|eauto].
  destruct (get_truthy_Ok _ "response" Hraw) as [response_ ->]. cbn [rbind].
  destruct (truthy response_) eqn:Hresponse; [|eauto].
  destruct (get_truthy_Ok _ "numFound" Hresponse) as [numFound ->].
  destruct (get_truthy_Ok _ "start" Hresponse) as [start ->].
  destruct (get_truthy_Ok _ "maxScore" Hresponse) as [maxScore ->]. cbn [rbind].
  destruct (bool_decide (is_Some numFound) && bool_decide (is_Some start) &&
            bool_decide (is_Some maxScore)); [|eauto].
  destruct (get_truthy_Ok _ "docs" Hresponse) as [docs ->]. cbn [rbind].
  destruct (truthy docs); [|eauto].
  destruct (get_truthy_Ok _ "facet_counts" Hraw) as [fc ->]. cbn [rbind].
  destruct (truthy fc) eqn:Hfc; [|eauto].
  destruct (get_truthy_Ok _ "facet_fields" Hfc) as [ff ->]. cbn [rbind]. eauto.
Qed.

(** X1: [success()] never throws, whatever the payload is: the first
    call stores a boolean verdict in [_success] and returns it, and a
    call that finds a stored verdict returns it unchanged. *)
Theorem success_never_throws (this : response) :
  ∃ verdict : bool,
    success null this = (Ok (Some (JBool verdict)), Some (JBool verdict)) ∧
    success (Some (JBool verdict)) this
    = (Ok (Some (JBool verdict)), Some (JBool verdict)) ∧
    okay null this = success null this.
Proof.
  destruct (success_check_total this) as [verdict Hcheck].
  exists verdict. unfold okay, success. cbn. by rewrite Hcheck.
Qed.


Section success_guards.

Variable parseInt : value → number.


End success_guards.

(** ** Paging *)

Section paging_properties.

Variable parseInt : value → number.

Lemma ltb_decide (a b : Z) : (a <? b)%Z = bool_decide (a < b)%Z.
Proof.
  destruct (Z.ltb_spec a b); [by rewrite bool_decide_true|].
  by rewrite bool_decide_false by lia.
Qed.

Lemma path_snoc (v : value) (names : list string) (key : string) :
  path v (names ++ [key])%list = (let+ x := path v names in get x key).
Proof.
  unfold path. revert v. induction names as [|name names IH]; intros v.
  - cbn. by destruct (get v key).
  - cbn [app rfold]. destruct (get v name) as [x|e]; [|done]. cbn [rbind]. apply IH.
Qed.

Lemma params_read (this : response) (params : gmap string json) (key : string) :
  path (_raw this) ["responseHeader"; "params"] = Ok (Some (JObj params)) →
  path (_raw this) ["responseHeader"; "params"; key] = Ok (params !! key).
Proof.
  intros Hparams.
  change ["responseHeader"; "params"; key]
    with (["responseHeader"; "params"] ++ [key])%list.
  by rewrite path_snoc, Hparams.
Qed.

Lemma response_reads (this : response) (r : gmap string json) (key : string) :
  get (_raw this) "response" = Ok (Some (JObj r)) →
  path (_raw this) ["response"; key] = Ok (r !! key).
Proof. intros Hr. unfold path. cbn [rfold]. by rewrite Hr. Qed.

Lemma docs_length_read (this : response) (r : gmap string json) (docs : list json) :
  get (_raw this) "response" = Ok (Some (JObj r)) →
  r !! "docs" = Some (JArr docs) →
  path (_raw this) ["response"; "docs"; "length"]
  = Ok (Some (JNum (Z.of_nat (length docs)))).
Proof.
  intros Hr Hdocs. unfold path. cbn [rfold]. rewrite Hr. cbn [rbind get].
  rewrite Hdocs. cbn [rbind]. by rewrite get_array_length.
Qed.

Lemma round_double_exact (x : Z) : exact x → round_double x = Finite x.
Proof.
  unfold exact, round_double. intros Hx. cbv zeta.
  destruct (Z.leb_spec (Z.abs x) (2 ^ 53)); [done|lia].
Qed.

Lemma page_window_aux (this : response) (r : gmap string json) (docs : list json)
    (start : json) (s : Z) :
  get (_raw this) "response" = Ok (Some (JObj r)) →
  r !! "start" = Some start →
  r !! "docs" = Some (JArr docs) →
  parseInt (Some start) = Finite s →
  parseInt (Some (JNum (Z.of_nat (length docs)))) = Finite (Z.of_nat (length docs)) →
  exact s →
  exact (s + Z.of_nat (length docs) + 1) →
  start_document parseInt this = Ok (Finite (s + 1)) ∧
  end_document parseInt this = Ok (Finite (s + Z.of_nat (length docs))).
Proof.
  intros Hr Hstart Hdocs Hs Hlen Hlow Hhigh. unfold exact in *.
  assert (Hfirst : start_document parseInt this = Ok (Finite (s + 1))).
  { unfold start_document. rewrite (response_reads _ _ _ Hr), Hstart.
    cbn [rbind]. rewrite Hs. cbn [plus].
    rewrite round_double_exact by (unfold exact; lia). done. }
  split; [done|].
  unfold end_document. rewrite Hfirst. cbn [rbind].
  rewrite (docs_length_read _ _ _ Hr Hdocs). cbn [rbind]. rewrite Hlen.
  cbn [plus]. rewrite round_double_exact by (unfold exact; lia).
  cbn [minus]. rewrite round_double_exact by (unfold exact; lia).
  do 2 f_equal. lia.
Qed.

(** X3: when [start] parses to [s] and the page holds [n] documents,
    and [s] and [s + n + 1] are integers a double holds exactly (from
    [-2^53] to [2^53]), [start_document()] is [s + 1] and
    [end_document()] is [s + n]: the page shows the documents numbered
    [s + 1] to [s + n], and on an empty page [end_document()] is one
    less than [start_document()]. *)
Theorem page_window (this : response) (r : gmap string json) (docs : list json)
    (start : json) (s : Z) :
  get (_raw this) "response" = Ok (Some (JObj r)) →
  r !! "start" = Some start →
  r !! "docs" = Some (JArr docs) →
  parseInt (Some start) = Finite s →
  parseInt (Some (JNum (Z.of_nat (length docs)))) = Finite (Z.of_nat (length docs)) →
  exact s →
  exact (s + Z.of_nat (length docs) + 1) →
  start_document parseInt this = Ok (Finite (s + 1)) ∧
  end_document parseInt this = Ok (Finite (s + Z.of_nat (length docs))) ∧
  (docs = [] → end_document parseInt this = Ok (Finite s)).
Proof.
  intros Hr Hstart Hdocs Hs Hlen Hlow Hhigh.
  destruct (page_window_aux this r docs start s Hr Hstart Hdocs Hs Hlen Hlow Hhigh)
    as [Hfirst Hlast].
  split_and!; [done..|]. intros ->. rewrite Hlast. cbn [length]. do 2 f_equal. lia.
Qed.

(** X4: the paging flags in terms of the payload.  With [numFound],
    [start] and [rows] parsing to [total], [s] and [rows], and [n]
    documents on the page, [s] and [s + n + 1] being integers a double
    holds exactly: paging is possible exactly when [total > rows],
    paging back exactly when [s > 0], paging forward exactly when
    [total > s + n]. *)
Theorem paging_flags (this : response) (r params : gmap string json)
    (docs : list json) (numFound start rows_value : json) (total s rows : Z) :
  get (_raw this) "response" = Ok (Some (JObj r)) →
  path (_raw this) ["responseHeader"; "params"] = Ok (Some (JObj params)) →
  r !! "numFound" = Some numFound →
  r !! "start" = Some start →
  r !! "docs" = Some (JArr docs) →
  params !! "rows" = Some rows_value →
  parseInt (Some numFound) = Finite total →
  parseInt (Some start) = Finite s →
  parseInt (Some rows_value) = Finite rows →
  parseInt (Some (JNum (Z.of_nat (length docs)))) = Finite (Z.of_nat (length docs)) →
  exact s →
  exact (s + Z.of_nat (length docs) + 1) →
  paging_p parseInt this = Ok (bool_decide (rows < total)%Z) ∧
  paging_previous_p parseInt this = Ok (bool_decide (0 < s)%Z) ∧
  paging_next_p parseInt this
  = Ok (bool_decide (s + Z.of_nat (length docs) < total)%Z).
Proof.
  intros Hr Hparams Hn Hstart Hdocs Hrows Htotal Hs Hrowsv Hlen Hlow Hhigh.
  destruct (page_window_aux this r docs start s Hr Hstart Hdocs Hs Hlen Hlow Hhigh)
    as [Hfirst Hlast].
  assert (Htot : total_documents parseInt this = Ok (Finite total)).
  { unfold total_documents. rewrite (response_reads _ _ _ Hr), Hn. cbn [rbind].
    by rewrite Htotal. }
  assert (Hrow : row_step parseInt this = Ok (Finite rows)).
  { unfold row_step. rewrite (params_read _ _ _ Hparams), Hrows. cbn [rbind].
    by rewrite Hrowsv. }
  split_and!.
  - unfold paging_p. rewrite Htot, Hrow. cbn [rbind greater]. by rewrite ltb_decide.
  - unfold paging_previous_p. rewrite Hfirst. cbn [rbind greater].
    rewrite ltb_decide. f_equal. apply bool_decide_ext. lia.
  - unfold paging_next_p. rewrite Htot, Hlast. cbn [rbind greater].
    by rewrite ltb_decide.
Qed.


End paging_properties.

Lemma page_window_witness :
  start_document parse_int_number response_second_page = Ok (Finite 3) ∧
  end_document parse_int_number response_second_page = Ok (Finite 4).
Proof.
  destruct (page_window parse_int_number response_second_page
              (list_to_map [("numFound", JNum 5); ("start", JNum 2);
                            ("maxScore", JNum 1);
                            ("docs", JArr [doc_classes; doc_plain])])
              [doc_classes; doc_plain] (JNum 2) 2)
    as (Hfirst & Hlast & _); try reflexivity; try (unfold exact; cbn; lia).
  split; [exact Hfirst|exact Hlast].
Defined.

Lemma paging_flags_witness :
  paging_p parse_int_number response_second_page = Ok true ∧
  paging_previous_p parse_int_number response_second_page = Ok true ∧
  paging_next_p parse_int_number response_second_page = Ok true.
Proof.
  apply (paging_flags parse_int_number response_second_page
           (list_to_map [("numFound", JNum 5); ("start", JNum 2);
                         ("maxScore", JNum 1);
                         ("docs", JArr [doc_classes; doc_plain])])
           (list_to_map [("rows", JNum 2)])
           [doc_classes; doc_plain] (JNum 5) (JNum 2) (JNum 2) 5 2 2);
    try reflexivity; unfold exact; cbn; lia.
Defined.

(** ** query, callback_type and parameter *)

(** X6: [callback_type()] is [parameter("callback_type")] on every
    payload, errors included.  [query()] is [parameter("q")] whenever the
    params section is truthy; when the response header has no params,
    [query()] returns [null] where [parameter("q")] throws. *)
Theorem query_and_callback_type_read_parameters :
  (∀ this, callback_type this = parameter this "callback_type") ∧
  (∀ this params,
     parameters this = Ok params → truthy params = true →
     query this = parameter this "q") ∧
  (∀ this,
     parameters this = Ok undefined →
     query this = Ok null ∧ parameter this "q" = Throw TypeError).
Proof.
  split_and!.
  - intros this. unfold callback_type, parameter.
    destruct (path (_raw this) ["responseHeader"; "params"]) as [params|e]; [|done].
    cbn [rbind]. destruct (get params "callback_type") as [[v|]|e]; try done.
    cbn [rbind]. rewrite bool_decide_true by eauto.
    by destruct (truthy (Some v)).
  - intros this params Hparams Htruthy. unfold parameters in Hparams.
    unfold query, parameter. rewrite Hparams. cbn [rbind]. rewrite Htruthy.
    destruct (get params "q") as [v|e]; [|done]. cbn [rbind andb].
    by destruct (truthy v).
  - intros this Hparams. unfold parameters in Hparams.
    unfold query, parameter. by rewrite Hparams.
Qed.

Lemma query_and_callback_type_read_parameters_witness :
  query sample_response = parameter sample_response "q".
Proof.
  destruct query_and_callback_type_read_parameters as (_ & Hquery & _).
  apply (Hquery sample_response (Some (obj [("q", JStr "*:*")]))); reflexivity.
Defined.

(** ** The index build *)

Lemma indexed_twice (this : response) (a b a' b' : option (gmap string value)) :
  set_doc_index2id b (set_doc_id2index a (set_doc_index2id b' (set_doc_id2index a' this)))
  = set_doc_index2id b (set_doc_id2index a this).
Proof. reflexivity. Qed.

Lemma indexed_same (this : response) (a b : option (gmap string value)) :
  _doc_id2index this = a → _doc_index2id this = b →
  set_doc_index2id b (set_doc_id2index a this) = this.
Proof. destruct this. cbn. by intros -> ->. Qed.

Lemma all_present_not_null (docs : list json) :
  all_present docs → JNull ∉ docs.
Proof.
  unfold all_present. rewrite forallb_forall. intros Hall Hin.
  specialize (Hall JNull (proj1 (list_elem_of_In _ _) Hin)). discriminate Hall.
Qed.

(** The loop of [get_doc] over documents without [null] runs to the
    end and leaves the maps [index_docs] computes. *)
Lemma build_run (docs : list json) (i : nat) (this : response)
    (a b : gmap string value) :
  JNull ∉ docs →
  _doc_id2index this = Some a →
  _doc_index2id this = Some b →
  for_each (imap (λ j x, (Some x, Some (JNum (Z.of_nat (i + j))))) docs)
    index_doc this
  = (Ok tt,
     set_doc_index2id (Some (index_docs i docs (a, b)).2)
       (set_doc_id2index (Some (index_docs i docs (a, b)).1) this)).
Proof.
  revert i this a b.
  induction docs as [|doc docs IH]; intros i this a b Hnull Ha Hb.
  - cbn. by rewrite indexed_same.
  - apply not_elem_of_cons in Hnull as [Hdoc Hnull].
    rewrite imap_cons. cbn [for_each].
    destruct (get_non_null doc "id") as [did Hdid]; [by intros ->|].
    assert (Hstep :
      index_doc (Some doc, Some (JNum (Z.of_nat (i + 0)))) this
      = (Ok tt,
         set_doc_index2id (Some (<[pretty (Z.of_nat i) := doc_did doc]> b))
           (set_doc_id2index (Some (<[id_key doc := Some (JNum (Z.of_nat i))]> a))
              this))).
    { unfold index_doc, bind, lift, modify, id_key, doc_did. rewrite Hdid.
      cbn [set_doc_id2index set_doc_index2id _doc_id2index _doc_index2id].
      rewrite Ha, Hb, Nat.add_0_r. reflexivity. }
    rewrite (bind_Ok _ _ _ _ _ Hstep).
    rewrite (imap_ext _ (λ j x, (Some x, Some (JNum (Z.of_nat (S i + j))))));
      [|intros j x _; cbn; do 4 f_equal; lia].
    rewrite (IH (S i)
               (set_doc_index2id (Some (<[pretty (Z.of_nat i) := doc_did doc]> b))
                  (set_doc_id2index
                     (Some (<[id_key doc := Some (JNum (Z.of_nat i))]> a)) this))
               (<[id_key doc := Some (JNum (Z.of_nat i))]> a)
               (<[pretty (Z.of_nat i) := doc_did doc]> b) Hnull eq_refl eq_refl).
    by rewrite indexed_twice.
Qed.

Lemma index_docs_position (docs : list json) (i p : nat)
    (a b : gmap string value) :
  (index_docs i docs (a, b)).2 !! pretty (Z.of_nat p)
  = if decide (i ≤ p < i + length docs)
    then doc_did <$> docs !! (p - i)
    else b !! pretty (Z.of_nat p).
Proof.
  revert i a b. induction docs as [|doc docs IH]; intros i a b.
  - cbn. by rewrite decide_False by lia.
  - cbn [index_docs fst snd]. rewrite IH. cbn [length].
    destruct (decide (p = i)) as [->|Hne].
    + rewrite decide_False by lia. rewrite decide_True by lia.
      by rewrite lookup_insert_eq, Nat.sub_diag.
    + rewrite lookup_insert_ne.
      2: { intros Heq. apply (inj pretty) in Heq. lia. }
      destruct (decide (S i ≤ p < S i + length docs)).
      * rewrite decide_True by lia.
        by replace (p - i) with (S (p - S i)) by lia.
      * by rewrite decide_False by lia.
Qed.

Lemma index_docs_identifier (docs : list json) (i : nat) (k : string)
    (a b : gmap string value) :
  (index_docs i docs (a, b)).1 !! k
  = match last_with_id k docs with
    | Some j => Some (Some (JNum (Z.of_nat (i + j))))
    | None => a !! k
    end.
Proof.
  revert i a b. induction docs as [|doc docs IH]; intros i a b; [done|].
  cbn [index_docs last_with_id fst snd]. rewrite IH.
  destruct (last_with_id k docs) as [j|].
  - do 4 f_equal. lia.
  - case_decide as Hk.
    + by rewrite Hk, lookup_insert_eq, Nat.add_0_r.
    + by rewrite lookup_insert_ne.
Qed.

Lemma last_with_id_Some (k : string) (docs : list json) (j : nat) :
  last_with_id k docs = Some j ↔
  (∃ doc, docs !! j = Some doc ∧ id_key doc = k) ∧
  (∀ j' doc', j < j' → docs !! j' = Some doc' → id_key doc' ≠ k).
Proof.
  revert j. induction docs as [|doc docs IH]; intros j.
  - split; [done|]. by intros [(? & ? & _) _].
  - cbn [last_with_id]. destruct (last_with_id k docs) as [j0|] eqn:Hlast.
    + split.
      * intros [= <-]. destruct (proj1 (IH j0) eq_refl) as [Hat Hlater].
        split; [done|]. intros [|j'] doc' Hlt Hj'; [lia|].
        apply (Hlater j' doc'); [lia|done].
      * intros [(d & Hd & Hk) Hlater]. destruct j as [|j].
        -- destruct (proj1 (IH j0) eq_refl) as [(d0 & Hd0 & Hk0) _].
           destruct (Hlater (S j0) d0); [lia|done..].
        -- assert (Some j0 = Some j) as [= ->]; [|done].
           apply IH. split; [by eauto|].
           intros j' doc' Hlt Hj'. apply (Hlater (S j') doc'); [lia|done].
    + assert (Hnone : ∀ j' doc', docs !! j' = Some doc' → id_key doc' ≠ k).
      { intros j' doc' Hj' Hk.
        assert (is_Some (last_with_id k docs)) as [? ?]; [|congruence].
        clear IH Hlast. revert j' Hj'.
        induction docs as [|d0 docs IHd]; intros j' Hj'; [done|].
        cbn [last_with_id]. destruct j' as [|j'].
        - injection Hj' as ->. destruct (last_with_id k docs); [eauto|].
          rewrite decide_True by done. eauto.
        - destruct (IHd j' Hj') as [? ->]. eauto. }
      case_decide as Hk.
      * split.
        -- intros [= <-]. split; [by eauto|].
           intros [|j'] doc' Hlt Hj'; [lia|]. by eapply Hnone.
        -- intros [(d & Hd & Hkd) _]. destruct j as [|j]; [done|].
           by destruct (Hnone j d).
      * split; [done|]. intros [(d & Hd & Hkd) _]. destruct j as [|j].
        -- by injection Hd as ->.
        -- by destruct (Hnone j d).
Qed.

Lemma last_with_id_None (k : string) (docs : list json) :
  last_with_id k docs = None ↔ ∀ doc, doc ∈ docs → id_key doc ≠ k.
Proof.
  split.
  - intros Hnone doc [j Hj]%list_elem_of_lookup Hk.
    assert (∃ j0, last_with_id k docs = Some j0) as [? ?]; [|congruence].
    clear Hnone. revert j Hj. induction docs as [|d0 docs IH]; intros j Hj; [done|].
    cbn [last_with_id]. destruct j as [|j].
    + injection Hj as ->. destruct (last_with_id k docs); [eauto|].
      rewrite decide_True by done. eauto.
    + destruct (IH j Hj) as [? ->]. eauto.
  - intros Hall. destruct (last_with_id k docs) as [j|] eqn:Hlast; [|done].
    apply last_with_id_Some in Hlast as [(doc & Hdoc & Hk) _].
    destruct (Hall doc); [|done]. apply list_elem_of_lookup. eauto.
Qed.
(** ** get_doc by identifier *)

(** [get_doc] on a payload whose documents are all present, from a
    receiver whose index is unset or complete. *)
Lemma get_doc_complete (this : response) (docs : list json) (doc_id : value) :
  documents this = Ok (Some (JArr docs)) →
  all_present docs →
  index_complete docs this →
  get_doc doc_id this
  = match get (Some (JArr docs)) (to_string doc_id) with
    | Ok at_position =>
        if truthy at_position then (Ok at_position, this)
        else (probe_index (Some (JArr docs)) (built_index docs).1 (to_string doc_id),
              indexed docs this)
    | Throw e => (Throw e, this)
    end.
Proof.
  intros Hdocs Hpresent Hcomplete.
  destruct (get_truthy_Ok (Some (JArr docs)) (to_string doc_id) eq_refl)
    as [at_position Hat]. rewrite Hat.
  destruct (truthy at_position) eqn:Htruthy.
  { apply get_doc_resolved. unfold resolved. rewrite Hdocs. cbn [truthy].
    by rewrite Hat, Htruthy. }
  destruct Hcomplete as [[Hid Hindex]|[Hid Hindex]].
  - unfold get_doc. unfold bind at 1. rewrite Hdocs.
    unfold bind at 1, lift at 1. cbn [truthy]. rewrite Hat, Htruthy. cbn [andb].
    unfold bind at 1, read at 1. rewrite Hid.
    rewrite bool_decide_false by (by intros [? ?]). cbn [negb].
    unfold bind at 1. unfold bind at 1, modify at 1. unfold bind at 1, modify at 1.
    assert (Hbuild :
      for_each (each_entries (Some (JArr docs))) index_doc
        (set_doc_index2id (Some ∅) (set_doc_id2index (Some ∅) this))
      = (Ok tt,
         set_doc_index2id (Some (index_docs 0 docs (∅, ∅)).2)
           (set_doc_id2index (Some (index_docs 0 docs (∅, ∅)).1)
              (set_doc_index2id (Some ∅) (set_doc_id2index (Some ∅) this)))))
      by exact (build_run docs 0
                  (set_doc_index2id (Some ∅) (set_doc_id2index (Some ∅) this))
                  ∅ ∅ (all_present_not_null _ Hpresent) eq_refl eq_refl).
    rewrite Hbuild.
    rewrite indexed_twice. unfold bind, read.
    cbn [set_doc_index2id set_doc_id2index _doc_id2index].
    fold (built_index docs). unfold probe_index, indexed.
    by destruct ((built_index docs).1 !! to_string doc_id) as [[doc_i|]|].
  - unfold indexed. rewrite (indexed_same _ _ _ Hid Hindex).
    apply get_doc_resolved. unfold resolved. rewrite Hdocs. cbn [truthy].
    by rewrite Hat, Htruthy, Hid.
Qed.






(** X9: a lookup that returned is repeatable: the same key on the
    receiver it left returns the same document and changes nothing, so
    the index is built at most once. *)
Theorem get_doc_repeatable (this this1 : response) (doc_id : value) (doc : value) :
  get_doc doc_id this = (Ok doc, this1) →
  get_doc doc_id this1 = (Ok doc, this1).
Proof. intros Hrun. by apply get_doc_resolved, (get_doc_settles _ this). Qed.

Lemma get_doc_repeatable_witness :
  get_doc (Some (JStr "b")) (get_doc (Some (JStr "b")) response_shared_id).2
  = (Ok (Some doc_third), (get_doc (Some (JStr "b")) response_shared_id).2).
Proof.
  apply (get_doc_repeatable response_shared_id). vm_compute. reflexivity.
Defined.
(** ** What the methods leave alone *)

Section frames.

Variable JSON_parse : string → option json.

(** An invariant that looks at the payload and the two index slots only
    survives [_map_to_try] and [get_doc_label] as soon as it survives
    [get_doc]. *)
Lemma map_to_try_keeps_core (I : response → Prop) (doc_key : value)
    (map_field : string) (item_key : value) :
  (∀ a b, _raw b = _raw a → _doc_id2index b = _doc_id2index a →
          _doc_index2id b = _doc_index2id a → I a → I b) →
  (∀ k, steps (keeps I) (get_doc k)) →
  steps (keeps I) (_map_to_try JSON_parse doc_key map_field item_key).
Proof.
  intros Hcore Hdoc this HI.
  pose proof (get_doc_field_steps _ doc_key map_field (Hdoc doc_key) this HI) as HI1.
  destruct (get_doc_field doc_key map_field this) as [[map_str|e] this1] eqn:Hfield.
  - rewrite (map_to_try_outcome _ _ _ _ _ _ _ Hfield).
    destruct (map_outcome_touches JSON_parse this1 (to_string doc_key) map_field
                (to_string item_key) map_str) as (? & ? & ? & _).
    by eapply Hcore.
  - by rewrite (map_to_try_throw _ _ _ _ _ _ _ Hfield).
Qed.

Lemma reachable_keeps_core (I : response → Prop) (json_data : value)
    (this : response) :
  (∀ a b, _raw b = _raw a → _doc_id2index b = _doc_id2index a →
          _doc_index2id b = _doc_index2id a → I a → I b) →
  (∀ k, steps (keeps I) (get_doc k)) →
  I (new_response json_data) →
  reachable JSON_parse json_data this → I this.
Proof.
  intros Hcore Hdoc Hnew.
  induction 1 as [|this doc_id _ IH|this doc_id field_id _ IH
                   |this doc_id field_id item_id _ IH
                   |this doc_id field_id item _ IH].
  - done.
  - by apply Hdoc.
  - by apply (get_doc_field_steps _ _ _ (Hdoc doc_id)).
  - apply (get_doc_label_steps JSON_parse (keeps I)); [done| |done].
    intros k mf item. by apply map_to_try_keeps_core.
  - by apply (get_doc_highlight_steps (keeps I)).
Qed.

(** X10: the payload is never changed: in every receiver reachable
    from [new response(json_data)], with [json_data] an object as the
    constructor requires, [_raw] is still that object; and the lookups
    [get_doc], [get_doc_field] and [get_doc_highlight] decode nothing
    and leave the label cache as it was. *)
Theorem payload_and_label_cache_untouched :
  (∀ payload this,
     reachable JSON_parse (Some (JObj payload)) this →
     _raw this = Some (JObj payload)) ∧
  (∀ this doc_id,
     _doc_label_maps (get_doc doc_id this).2 = _doc_label_maps this ∧
     decodes (get_doc doc_id this).2 = decodes this) ∧
  (∀ this doc_id field_id,
     _doc_label_maps (get_doc_field doc_id field_id this).2 = _doc_label_maps this ∧
     decodes (get_doc_field doc_id field_id this).2 = decodes this) ∧
  (∀ this doc_id field_id item,
     _doc_label_maps (get_doc_highlight doc_id field_id item this).2
     = _doc_label_maps this ∧
     decodes (get_doc_highlight doc_id field_id item this).2 = decodes this).
Proof.
  split_and!.
  - intros payload this Hreach.
    apply (reachable_keeps_core (λ t, _raw t = Some (JObj payload))
             (Some (JObj payload)) this); [congruence| |done..].
    intros k t Ht. destruct (get_doc_index_only k t) as (Hraw & _). congruence.
  - intros this doc_id. by destruct (get_doc_index_only doc_id this) as (_ & ? & ? & _).
  - intros this doc_id field_id.
    by destruct (get_doc_field_steps index_only doc_id field_id
                   (get_doc_index_only doc_id) this) as (_ & ? & ? & _).
  - intros this doc_id field_id item.
    by destruct (get_doc_highlight_steps index_only doc_id field_id item
                   get_doc_index_only this) as (_ & ? & ? & _).
Qed.


End frames.


Lemma payload_and_label_cache_untouched_witness :
  _raw response_asked_twice = _raw sample_response.
Proof.
  apply (proj1 (payload_and_label_cache_untouched parse_flat)).
  apply reachable_get_doc_label, reachable_get_doc_label, reachable_new.
Defined.

(** ** Stripping tags *)

Lemma strip_from_chars (in_tag : bool) (s : string) (c : ascii) :
  c ∈ list_ascii_of_string (strip_from in_tag s) → c ∈ list_ascii_of_string s.
Proof.
  revert in_tag. induction s as [|d r IH]; intros in_tag; [done|].
  cbn [strip_from list_ascii_of_string]. destruct in_tag.
  - destruct (Ascii.eqb d ">"); intros Hc; right; by eapply IH.
  - destruct (Ascii.eqb d "<" && has_gt r).
    + intros Hc. right. by eapply IH.
    + cbn [list_ascii_of_string]. intros [->|Hc]%elem_of_cons; [by left|].
      right. by eapply IH.
Qed.

Lemma has_gt_strip_from (in_tag : bool) (s : string) :
  has_gt (strip_from in_tag s) = true → has_gt s = true.
Proof.
  unfold has_gt. rewrite !bool_decide_eq_true. apply strip_from_chars.
Qed.

Lemma strip_from_tagless (in_tag : bool) (s : string) :
  tagless (strip_from in_tag s) = true.
Proof.
  revert in_tag. induction s as [|c r IH]; intros in_tag; [done|].
  cbn [strip_from]. destruct in_tag.
  - destruct (Ascii.eqb c ">"); apply IH.
  - destruct (Ascii.eqb c "<") eqn:Hc; cbn [andb].
    + destruct (has_gt r) eqn:Hgt; [apply IH|].
      cbn [tagless]. rewrite Hc, IH, andb_true_r.
      destruct (has_gt (strip_from false r)) eqn:Hgt'; [|done].
      apply has_gt_strip_from in Hgt'. congruence.
    + cbn [tagless]. by rewrite Hc, IH.
Qed.

Lemma strip_tagless (s : string) : tagless s = true → strip_tags s = s.
Proof.
  unfold strip_tags. induction s as [|c r IH]; [done|].
  cbn [tagless strip_from]. intros [Hc Hr]%andb_true_iff.
  destruct (Ascii.eqb c "<"); cbn [andb].
  - apply negb_true_iff in Hc. rewrite Hc. by rewrite IH.
  - by rewrite IH.
Qed.

Lemma has_gt_tag (t rest : string) : has_gt (t ++ String ">" rest) = true.
Proof.
  unfold has_gt. apply bool_decide_eq_true.
  induction t as [|c t IH]; [by left|]. by right.
Qed.

Lemma strip_in_tag (t rest : string) :
  ">"%char ∉ list_ascii_of_string t →
  strip_from true (t ++ String ">" rest) = strip_from false rest.
Proof.
  induction t as [|c t IH]; [done|]. cbn [list_ascii_of_string].
  intros [Hc Ht]%not_elem_of_cons.
  change (String c t ++ String ">" rest) with (String c (t ++ String ">" rest)).
  cbn [strip_from].
  assert (Ascii.eqb c ">" = false) as -> by (apply Ascii.eqb_neq; congruence).
  by apply IH.
Qed.

Lemma strip_before_tag (a rest : string) :
  "<"%char ∉ list_ascii_of_string a →
  strip_from false (a ++ rest) = a ++ strip_from false rest.
Proof.
  induction a as [|c a IH]; [done|]. cbn [list_ascii_of_string].
  intros [Hc Ha]%not_elem_of_cons.
  change (String c a ++ rest) with (String c (a ++ rest)).
  cbn [strip_from].
  assert (Ascii.eqb c "<" = false) as -> by (apply Ascii.eqb_neq; congruence).
  cbn [andb]. rewrite (IH Ha). reflexivity.
Qed.

(** X12: what [replace(<[^>]*>, '')] does to a fragment.  A tag, that is
    a [<], text without [>], and a [>], is removed together with its
    text; text without [<] before it is kept; whatever the input, the
    result holds no tag any more, so stripping twice is stripping
    once. *)
Theorem strip_tags_removes_tags :
  (∀ a t rest,
     "<"%char ∉ list_ascii_of_string a →
     ">"%char ∉ list_ascii_of_string t →
     strip_tags (a ++ String "<" (t ++ String ">" rest)) = a ++ strip_tags rest) ∧
  (∀ s a t rest, strip_tags s ≠ a ++ String "<" (t ++ String ">" rest)) ∧
  (∀ s, strip_tags (strip_tags s) = strip_tags s).
Proof.
  split_and!.
  - intros a t rest Ha Ht. unfold strip_tags.
    rewrite (strip_before_tag _ _ Ha). f_equal.
    cbn [strip_from Ascii.eqb]. rewrite has_gt_tag. cbn [andb].
    change (Ascii.eqb "<" "<") with true. cbv iota.
    by apply strip_in_tag.
  - intros s a t rest Heq.
    pose proof (strip_from_tagless false s) as Htagless.
    fold (strip_tags s) in Htagless. rewrite Heq in Htagless. clear Heq.
    induction a as [|c a IH].
    + change ("" ++ String "<" (t ++ String ">" rest))
        with (String "<" (t ++ String ">" rest)) in Htagless.
      cbn [tagless] in Htagless. change (Ascii.eqb "<" "<") with true in Htagless.
      rewrite has_gt_tag in Htagless. done.
    + change (String c a ++ String "<" (t ++ String ">" rest))
        with (String c (a ++ String "<" (t ++ String ">" rest))) in Htagless.
      cbn [tagless] in Htagless. apply andb_true_iff in Htagless as [_ Htagless].
      by apply IH.
  - intros s. apply strip_tagless, strip_from_tagless.
Qed.

Lemma strip_tags_removes_tags_witness :
  strip_tags ("see " ++ String "<" ("em" ++ String ">" "one")) = "see " ++ strip_tags "one".
Proof.
  apply (proj1 strip_tags_removes_tags).
  - apply (bool_decide_unpack _). vm_compute. exact I.
  - apply (bool_decide_unpack _). vm_compute. exact I.
Defined.

(** ** get_doc_highlight *)

Lemma get_doc_highlight_eq (doc_id : value) (field_id : string) (item : value) :
  get_doc_highlight doc_id field_id item
  = (do robj <- read _raw;
     do highlighting <- lift (get robj "highlighting");
     do direct <- lift (if truthy highlighting
                        then get highlighting (to_string doc_id)
                        else Ok undefined);
     do hilite_obj <-
       (if truthy highlighting && truthy direct then ret direct
        else
          do index2id <- read _doc_index2id;
          match index2id with
          | None => throw TypeError
          | Some index =>
              let iid := prop index (to_string doc_id) in
              if truthy iid then
                do new_doc <- get_doc iid;
                do new_doc_id <- lift (get new_doc "id");
                do by_id <- lift (if truthy highlighting
                                  then get highlighting (to_string new_doc_id)
                                  else Ok undefined);
                if truthy highlighting && truthy by_id then ret by_id else ret null
              else ret null
          end);
     pick_fragments hilite_obj field_id item).
Proof. reflexivity. Qed.

(** The three ways the search for the highlight entry can go. *)
Lemma highlight_direct (this : response) (doc_id : value) (field_id : string)
    (item hl entry : value) :
  get (_raw this) "highlighting" = Ok hl →
  truthy hl = true →
  get hl (to_string doc_id) = Ok entry →
  truthy entry = true →
  get_doc_highlight doc_id field_id item this
  = pick_fragments entry field_id item this.
Proof.
  intros Hhl Htruthy Hentry Hfound. rewrite get_doc_highlight_eq.
  unfold bind at 1, read at 1. unfold bind at 1, lift at 1. rewrite Hhl.
  unfold bind at 1, lift at 1. rewrite Htruthy, Hentry.
  unfold bind at 1. rewrite Hfound. reflexivity.
Qed.

Lemma highlight_unindexed (this : response) (doc_id : value) (field_id : string)
    (item hl : value) :
  get (_raw this) "highlighting" = Ok hl →
  (truthy hl = false ∨ ∃ entry, get hl (to_string doc_id) = Ok entry ∧
                                truthy entry = false) →
  _doc_index2id this = None →
  get_doc_highlight doc_id field_id item this = (Throw TypeError, this).
Proof.
  intros Hhl Hmiss Hindex. rewrite get_doc_highlight_eq.
  unfold bind at 1, read at 1. unfold bind at 1, lift at 1. rewrite Hhl.
  unfold bind at 1, lift at 1.
  destruct Hmiss as [Hfalsy|(entry & Hentry & Hfalsy)].
  - rewrite Hfalsy. cbn [andb]. unfold bind, read, throw. cbn. by rewrite Hindex.
  - rewrite Hentry. destruct (truthy hl); unfold bind, read, throw; cbn;
      by rewrite ?Hfalsy, Hindex.
Qed.

Lemma highlight_indexed (this : response) (doc_id : value) (field_id : string)
    (item hl : value) (index : gmap string value) :
  get (_raw this) "highlighting" = Ok hl →
  (truthy hl = false ∨ ∃ entry, get hl (to_string doc_id) = Ok entry ∧
                                truthy entry = false) →
  _doc_index2id this = Some index →
  get_doc_highlight doc_id field_id item this
  = if truthy (prop index (to_string doc_id)) then
      (do new_doc <- get_doc (prop index (to_string doc_id));
       do new_doc_id <- lift (get new_doc "id");
       do by_id <- lift (if truthy hl then get hl (to_string new_doc_id)
                         else Ok undefined);
       pick_fragments (if truthy hl && truthy by_id then by_id else null)
         field_id item) this
    else (Ok null, this).
Proof.
  intros Hhl Hmiss Hindex. rewrite get_doc_highlight_eq.
  unfold bind at 1, read at 1. unfold bind at 1, lift at 1. rewrite Hhl.
  unfold bind at 1, lift at 1.
  assert (Hgo : ∀ direct,
    truthy hl && truthy direct = false →
    (do hilite_obj <- (if truthy hl && truthy direct then ret direct
                       else
                         do index2id <- read _doc_index2id;
                         match index2id with
                         | None => throw TypeError
                         | Some index =>
                             let iid := prop index (to_string doc_id) in
                             if truthy iid then
                               do new_doc <- get_doc iid;
                               do new_doc_id <- lift (get new_doc "id");
                               do by_id <- lift (if truthy hl
                                                 then get hl (to_string new_doc_id)
                                                 else Ok undefined);
                               if truthy hl && truthy by_id then ret by_id
                               else ret null
                             else ret null
                         end);
     pick_fragments hilite_obj field_id item) this
    = if truthy (prop index (to_string doc_id)) then
        (do new_doc <- get_doc (prop index (to_string doc_id));
         do new_doc_id <- lift (get new_doc "id");
         do by_id <- lift (if truthy hl then get hl (to_string new_doc_id)
                           else Ok undefined);
         pick_fragments (if truthy hl && truthy by_id then by_id else null)
           field_id item) this
      else (Ok null, this)).
  { intros direct ->.
    change (Ok null, this) with (pick_fragments null field_id item this).
    generalize pick_fragments as k. intros k.
    unfold bind, read, lift, ret. rewrite Hindex.
    destruct (truthy (prop index (to_string doc_id))); [|done].
    destruct (get_doc (prop index (to_string doc_id)) this) as [[new_doc|e] this1];
      [|done].
    destruct (get new_doc "id") as [new_doc_id|e]; [|done].
    destruct (if truthy hl then get hl (to_string new_doc_id) else Ok undefined)
      as [by_id|e]; [|done].
    by destruct (truthy hl && truthy by_id). }
  destruct Hmiss as [Hfalsy|(entry & Hentry & Hfalsy)].
  - rewrite Hfalsy in Hgo |- *. by apply (Hgo undefined).
  - destruct (truthy hl) eqn:Htruthy.
    + rewrite Hentry. apply (Hgo entry). by rewrite Hfalsy.
    + by apply (Hgo undefined).
Qed.

Lemma pick_fragments_null (field_id : string) (item : value) (this : response) :
  pick_fragments null field_id item this = (Ok null, this).
Proof. reflexivity. Qed.

Lemma first_match_strings (item : value) (fragments : list string) :
  first_match item ((λ fragment, Some (JStr fragment)) <$> fragments)
  = Ok (matching_fragment item fragments).
Proof.
  unfold matching_fragment. induction fragments as [|fragment fragments IH]; [done|].
  cbn [fmap list_fmap first_match list_find]. case_decide as Hmatch.
  - by rewrite Hmatch.
  - apply not_true_is_false in Hmatch. rewrite Hmatch, IH.
    by destruct (list_find _ fragments) as [[i x]|].
Qed.

Lemma pick_fragments_entry (entry : gmap string json) (field_id : string)
    (item : value) (this : response) :
  pick_fragments (Some (JObj entry)) field_id item this
  = (let ans := first_truthy entry (hilite_keys field_id) in
     if truthy ans then first_match item (each_entries ans).*1 else Ok null,
     this).
Proof.
  unfold pick_fragments, hilite_keys. cbn [truthy get first_truthy].
  unfold bind, lift, ret.
  destruct (truthy (entry !! (field_id ++ "_label_searchable"))) eqn:H1.
  { rewrite H1. cbn. by rewrite !H1. }
  cbn [truthy null].
  destruct (truthy (entry !! (field_id ++ "_label"))) eqn:H2.
  { rewrite H2. cbn. by rewrite !H2. }
  cbn [truthy null].
  destruct (truthy (entry !! (field_id ++ "_searchable"))) eqn:H3.
  { rewrite H3. cbn. by rewrite !H3. }
  cbn [truthy null].
  destruct (truthy (entry !! field_id)) eqn:H4.
  { by rewrite H4. }
  reflexivity.
Qed.

(** X13: when the highlighting section holds an entry under the key
    itself, [get_doc_highlight] needs no index.  It takes the fragments
    under the first of [field_label_searchable], [field_label],
    [field_searchable], [field] that holds a truthy value, and returns
    the first fragment whose text without tags is the item, in its
    original form; fragments under the later keys are not looked at,
    and without a match the result is [null].  It is [null] as well
    when none of the four holds a truthy value and the field is not the
    name of an inherited member.  The receiver is left as it was. *)
Theorem highlight_first_matching_fragment (this : response) (doc_id : value)
    (field_id : string) (item : value) (hl entry : gmap string json) :
  get (_raw this) "highlighting" = Ok (Some (JObj hl)) →
  hl !! to_string doc_id = Some (JObj entry) →
  (∀ fragments,
     first_truthy entry (hilite_keys field_id)
     = Some (JArr ((λ fragment, JStr fragment) <$> fragments)) →
     get_doc_highlight doc_id field_id item this
     = (Ok (matching_fragment item fragments), this)) ∧
  (first_truthy entry (hilite_keys field_id) = null →
   inherited field_id = false →
   get_doc_highlight doc_id field_id item this = (Ok null, this)).
Proof.
  intros Hhl Hentry.
  assert (Hrun : get_doc_highlight doc_id field_id item this
                 = pick_fragments (Some (JObj entry)) field_id item this).
  { apply (highlight_direct _ _ _ _ (Some (JObj hl))); [done..| |done].
    cbn [get]. by rewrite Hentry. }
  rewrite Hrun, pick_fragments_entry. split.
  - intros fragments ->. cbv zeta. cbn [truthy each_entries].
    rewrite fmap_imap. f_equal.
    rewrite <- first_match_strings. f_equal.
    clear. generalize 0 as i. induction fragments as [|fragment fragments IH];
      intros i; [done|].
    cbn [fmap list_fmap]. rewrite imap_cons. cbn. f_equal.
    rewrite <- (IH (S i)). apply imap_ext. done.
  - by intros -> _.
Qed.

Lemma highlight_first_matching_fragment_witness :
  get_doc_highlight (Some (JStr "d1")) "cls" (Some (JStr "one")) response_highlighted
  = (Ok (Some (JStr "<em>one</em>")), response_highlighted).
Proof.
  refine (proj1 (highlight_first_matching_fragment response_highlighted
                   (Some (JStr "d1")) "cls" (Some (JStr "one"))
                   (list_to_map
                      [("d1", obj [("cls_label",
                                    JArr [JStr "<em>one</em> more"; JStr "<em>one</em>";
                                          JStr "<b>one</b>"]);
                                   ("cls", JArr [JStr "one"])])])
                   (list_to_map
                      [("cls_label",
                        JArr [JStr "<em>one</em> more"; JStr "<em>one</em>";
                              JStr "<b>one</b>"]);
                       ("cls", JArr [JStr "one"])]) _ _)
            ["<em>one</em> more"; "<em>one</em>"; "<b>one</b>"] _).
  - vm_compute. reflexivity.
  - vm_compute. reflexivity.
  - vm_compute. reflexivity.
Defined.

(** X14: a highlight lookup whose key has no truthy entry in the
    highlighting section depends on the position index.  While the index
    has not been built the call throws a [TypeError]; once it exists and
    records no truthy identifier under the key, the call returns [null].
    The receiver is unchanged either way. *)
Theorem highlight_miss_needs_index (this : response) (doc_id : value)
    (field_id : string) (item hl : value) :
  get (_raw this) "highlighting" = Ok hl →
  (truthy hl = false ∨
   ∃ entry, get hl (to_string doc_id) = Ok entry ∧ truthy entry = false) →
  (_doc_index2id this = None →
   get_doc_highlight doc_id field_id item this = (Throw TypeError, this)) ∧
  (∀ index, _doc_index2id this = Some index →
            truthy (prop index (to_string doc_id)) = false →
            get_doc_highlight doc_id field_id item this = (Ok null, this)).
Proof.
  intros Hhl Hmiss. split.
  - intros Hindex. by apply (highlight_unindexed _ _ _ _ hl).
  - intros index Hindex Hunknown.
    by rewrite (highlight_indexed _ _ _ _ hl index Hhl Hmiss Hindex), Hunknown.
Qed.

Lemma highlight_miss_needs_index_witness :
  get_doc_highlight (Some (JStr "d2")) "taxon" (Some (JStr "NCBITaxon:9606"))
    response_highlighted
  = (Throw TypeError, response_highlighted) ∧
  get_doc_highlight (Some (JStr "d2")) "taxon" (Some (JStr "NCBITaxon:9606"))
    (indexed [doc_classes; doc_plain] response_highlighted)
  = (Ok null, indexed [doc_classes; doc_plain] response_highlighted).
Proof.
  split.
  - refine (proj1 (highlight_miss_needs_index response_highlighted
                     (Some (JStr "d2")) "taxon" (Some (JStr "NCBITaxon:9606"))
                     (Some (obj [("d1", obj [("cls_label",
                                    JArr [JStr "<em>one</em> more"; JStr "<em>one</em>";
                                          JStr "<b>one</b>"]);
                                   ("cls", JArr [JStr "one"])])])) _ _) _).
    + vm_compute. reflexivity.
    + right. exists undefined. split; vm_compute; reflexivity.
    + reflexivity.
  - refine (proj2 (highlight_miss_needs_index
                     (indexed [doc_classes; doc_plain] response_highlighted)
                     (Some (JStr "d2")) "taxon" (Some (JStr "NCBITaxon:9606"))
                     (Some (obj [("d1", obj [("cls_label",
                                    JArr [JStr "<em>one</em> more"; JStr "<em>one</em>";
                                          JStr "<b>one</b>"]);
                                   ("cls", JArr [JStr "one"])])])) _ _)
              (built_index [doc_classes; doc_plain]).2 _ _).
    + vm_compute. reflexivity.
    + right. exists undefined. split; vm_compute; reflexivity.
    + reflexivity.
    + vm_compute. reflexivity.
Defined.

Lemma index_docs_other (docs : list json) (i : nat) (k : string)
    (a b : gmap string value) :
  (∀ p, i ≤ p < i + length docs → k ≠ pretty (Z.of_nat p)) →
  (index_docs i docs (a, b)).2 !! k = b !! k.
Proof.
  revert i a b. induction docs as [|doc docs IH]; intros i a b Hk; [done|].
  cbn [index_docs fst snd]. rewrite IH.
  - rewrite lookup_insert_ne; [done|]. intros Heq. apply (Hk i); [|done].
    cbn [length]. lia.
  - intros p Hp. apply Hk. cbn [length]. lia.
Qed.

Lemma get_array_not_position (docs : list json) (k : string) (p : nat) :
  get (Some (JArr docs)) k = Ok undefined →
  p < length docs → k ≠ pretty (Z.of_nat p).
Proof.
  intros Hk Hp ->. destruct (lookup_lt_is_Some_2 docs p Hp) as [doc Hdoc].
  rewrite pretty_Z_of_nat, (get_array_position _ _ _ Hdoc) in Hk. discriminate Hk.
Qed.

(** X15: with the index in place a highlight can be asked for by
    position.  When the highlighting section has no truthy entry under
    the position itself, and the identifier of the document at that
    position is truthy and no property of the document array, the call
    with the position gives what the call with that identifier gives. *)
Theorem highlight_by_position (this : response) (docs : list json) (p : nat)
    (doc : json) (field_id : string) (item : value) (hl : gmap string json) :
  documents this = Ok (Some (JArr docs)) →
  all_present docs →
  _doc_id2index this = Some (built_index docs).1 →
  _doc_index2id this = Some (built_index docs).2 →
  get (_raw this) "highlighting" = Ok (Some (JObj hl)) →
  docs !! p = Some doc →
  truthy (doc_did doc) = true →
  truthy (hl !! pretty (Z.of_nat p)) = false →
  get (Some (JArr docs)) (id_key doc) = Ok undefined →
  get_doc_highlight (Some (JNum (Z.of_nat p))) field_id item this
  = get_doc_highlight (doc_did doc) field_id item this.
Proof.
  intros Hdocs Hpresent Hid Hindex Hhl Hp Htruthy Hpos Harr.
  assert (Hlast : ∃ j doc', last_with_id (id_key doc) docs = Some j ∧
                            docs !! j = Some doc' ∧ id_key doc' = id_key doc).
  { destruct (last_with_id (id_key doc) docs) as [j|] eqn:Hlast.
    - destruct (proj1 (last_with_id_Some _ _ _) Hlast) as [(doc' & Hj & Hk) _].
      eauto.
    - destruct (proj1 (last_with_id_None _ _) Hlast doc); [|done].
      apply list_elem_of_lookup. eauto. }
  destruct Hlast as (j & doc' & Hlast & Hj & Hk).
  assert (Hget : get_doc (doc_did doc) this = (Ok (Some doc'), this)).
  { rewrite (get_doc_complete _ _ _ Hdocs Hpresent (or_intror (conj Hid Hindex))).
    change (to_string (doc_did doc)) with (id_key doc). rewrite Harr.
    cbn [truthy undefined]. unfold indexed. rewrite (indexed_same _ _ _ Hid Hindex).
    f_equal. unfold probe_index, built_index. rewrite index_docs_identifier, Hlast.
    cbn [Nat.add json_to_string]. rewrite pretty_Z_of_nat.
    by apply get_array_position. }
  assert (Hdoc' : get (Some doc') "id" = Ok (doc_did doc')).
  { destruct (get_non_null doc' "id") as [did Hdid].
    - intros ->. apply (all_present_not_null _ Hpresent).
      apply list_elem_of_lookup. eauto.
    - unfold doc_did. by rewrite Hdid. }
  rewrite (highlight_indexed this (Some (JNum (Z.of_nat p))) field_id item
             (Some (JObj hl)) (built_index docs).2 Hhl
             (or_intror (ex_intro _ (hl !! pretty (Z.of_nat p)) (conj eq_refl Hpos)))
             Hindex).
  cbn [to_string json_to_string].
  assert (prop (built_index docs).2 (pretty (Z.of_nat p)) = doc_did doc) as ->.
  { unfold prop, built_index. rewrite index_docs_position.
    rewrite decide_True by (apply lookup_lt_Some in Hp; lia).
    by rewrite Nat.sub_0_r, Hp. }
  rewrite Htruthy, (bind_Ok _ _ _ _ _ Hget).
  unfold bind at 1, lift at 1. rewrite Hdoc'.
  unfold bind at 1, lift at 1. cbn [truthy get andb].
  change (to_string (doc_did doc')) with (id_key doc'). rewrite Hk.
  destruct (truthy (hl !! id_key doc)) eqn:Hentry.
  - symmetry. apply (highlight_direct _ _ _ _ (Some (JObj hl))); done.
  - rewrite (highlight_indexed this (doc_did doc) field_id item
               (Some (JObj hl)) (built_index docs).2 Hhl
               (or_intror (ex_intro _ (hl !! id_key doc) (conj eq_refl Hentry)))
               Hindex).
    change (to_string (doc_did doc)) with (id_key doc).
    assert (prop (built_index docs).2 (id_key doc) = undefined) as ->; [|done].
    unfold prop, built_index. rewrite index_docs_other; [done|].
    intros q Hq. apply (get_array_not_position docs); [done|lia].
Qed.

Lemma highlight_by_position_witness :
  get_doc_highlight (Some (JNum 0)) "cls" (Some (JStr "one"))
    (indexed [doc_classes; doc_plain] response_highlighted)
  = get_doc_highlight (Some (JStr "d1")) "cls" (Some (JStr "one"))
      (indexed [doc_classes; doc_plain] response_highlighted).
Proof.
  apply (highlight_by_position
           (indexed [doc_classes; doc_plain] response_highlighted)
           [doc_classes; doc_plain] 0 doc_classes "cls" (Some (JStr "one"))
           (list_to_map
              [("d1", obj [("cls_label",
                            JArr [JStr "<em>one</em> more"; JStr "<em>one</em>";
                                  JStr "<b>one</b>"]);
                           ("cls", JArr [JStr "one"])])])).
  - reflexivity.
  - reflexivity.
  - reflexivity.
  - reflexivity.
  - vm_compute. reflexivity.
  - reflexivity.
  - reflexivity.
  - vm_compute. reflexivity.
  - vm_compute. reflexivity.
Defined.

(** ** Answers do not depend on the calls made before *)

Section history.

Variable JSON_parse : string → option json.




End history.



(** ** query_filters at the edges *)

Lemma rfold_throws {A B} (body : B → A → result B) (e : error) (l : list A)
    (x : A) (acc : B) :
  x ∈ l →
  (∀ acc, body acc x = Throw e) →
  (∀ acc y e', body acc y = Throw e' → e' = e) →
  rfold body acc l = Throw e.
Proof.
  intros Hx Hthrows Honly. revert acc.
  induction l as [|y l IH]; intros acc; [by apply elem_of_nil in Hx|].
  cbn [rfold]. destruct (body acc y) as [acc'|e'] eqn:Hy.
  - cbn [rbind]. apply elem_of_cons in Hx as [->|Hx]; [|by apply IH].
    by rewrite Hthrows in Hy.
  - cbn [rbind]. by rewrite (Honly _ _ _ Hy).
Qed.

Lemma rfold_throw_inv {A B} (body : B → A → result B) (e : error) (l : list A)
    (acc : B) :
  rfold body acc l = Throw e → ∃ acc' y, y ∈ l ∧ body acc' y = Throw e.
Proof.
  revert acc. induction l as [|y l IH]; intros acc; [done|].
  cbn [rfold]. destruct (body acc y) as [acc'|e'] eqn:Hy; cbn [rbind].
  - intros (acc1 & z & Hz & Hrun)%IH. exists acc1, z. split; [by right|done].
  - intros [= ->]. exists acc, y. split; [by left|done].
Qed.

Lemma split_colon_free (s : string) : colon_free s → split ":" s = [s].
Proof.
  unfold colon_free. induction s as [|c r IH]; intros Hfree; [done|].
  simpl in *. rewrite not_elem_of_cons in Hfree. destruct Hfree as [Hc Hr].
  destruct (Ascii.eqb_spec c ":") as [->|_]; [done|]. by rewrite (IH Hr).
Qed.



Lemma filter_item_plain (h : gmap string (gmap string bool)) (s : sign)
    (g : string) (entry : value * value) :
  entry.1 = Some (JStr (sign_text s ++ g)) →
  colon_free g →
  (s = Unsigned → sign_free g) →
  inherited g = false →
  filter_item h entry
  = Ok (<[g := <["" := sign_polarity s]> (default ∅ (h !! g))]> h).
Proof.
  intros Hentry Hcolon Hsign Hown. unfold filter_item. rewrite Hentry.
  rewrite (split_colon_free _ (colon_free_signed s g Hcolon)). cbn [join].
  rewrite (unquote_bare "") by (by intros u).
  destruct s; cbn [sign_text sign_polarity].
  - change (char_at ("-" ++ g) 0) with "-". rewrite String.eqb_refl.
    change ("-" ++ g) with (String "-" g). rewrite substring_tail.
    by apply put2_ensure.
  - change (char_at ("+" ++ g) 0) with "+".
    change (String.eqb "+" "-") with false. rewrite String.eqb_refl.
    change ("+" ++ g) with (String "+" g). rewrite substring_tail.
    by apply put2_ensure.
  - change ("" ++ g) with g.
    assert (String.eqb (char_at g 0) "-" = false ∧
            String.eqb (char_at g 0) "+" = false) as [-> ->].
    { destruct g as [|c r]; [done|].
      destruct (Hsign eq_refl r) as [Hm Hp].
      change (char_at (String c r) 0) with (String c "").
      split; apply String.eqb_neq; intros [= ->]; congruence. }
    by apply put2_ensure.
Qed.

(** X17: a filter without a colon is all field and no value.  The
    text, less a leading [-] or [+], becomes the field, and when the
    field is not the name of an inherited member, the entry recorded
    under it has the empty string as its value, with the polarity of the
    sign. *)
Theorem query_filters_without_colon (this : response) (params : gmap string json)
    (s : sign) (g : string) :
  path (_raw this) ["responseHeader"; "params"] = Ok (Some (JObj params)) →
  params !! "fq" = Some (JStr (sign_text s ++ g)) →
  colon_free g →
  (s = Unsigned → sign_free g) →
  inherited g = false →
  sign_text s ++ g ≠ "" →
  query_filters this = Ok {[ g := {[ "" := sign_polarity s ]} ]}.
Proof.
  intros Hparams Hfq Hcolon Hsign Hown Hne. apply String.eqb_neq in Hne.
  assert (Htruthy : truthy (Some (JStr (sign_text s ++ g))) = true)
    by (cbn [truthy]; by rewrite Hne).
  unfold query_filters.
  rewrite (parameter_lookup _ _ _ Hparams), Hfq, Htruthy.
  cbn [rbind]. rewrite Htruthy. cbn [what_is is_str].
  rewrite String.eqb_refl. cbn [each_entries imap rfold].
  rewrite (filter_item_plain _ s g) by done. cbn [rbind].
  rewrite lookup_empty. cbn [default]. by rewrite !insert_empty.
Qed.

Lemma query_filters_without_colon_witness :
  query_filters response_bare_filter = Ok {[ "is_obsolete" := {[ "" := false ]} ]}.
Proof.
  apply (query_filters_without_colon response_bare_filter
           (list_to_map [("fq", JStr "-is_obsolete")]) Minus "is_obsolete").
  - reflexivity.
  - reflexivity.
  - apply (bool_decide_unpack _). vm_compute. exact I.
  - discriminate.
  - reflexivity.
  - discriminate.
Defined.



(** ** The facets at the edges *)

#[local] Instance string_le_total : Total string_le := String.leb_total.

Lemma facet_names (ff : gmap string json) (g : string) :
  g ∈ merge_sort string_le (map_to_list ff).*1 ↔ is_Some (ff !! g).
Proof.
  rewrite merge_sort_Permutation, list_elem_of_fmap. split.
  - intros ([g' v] & -> & Hg). apply elem_of_map_to_list in Hg. by exists v.
  - intros [v Hv]. exists (g, v). split; [done|]. by apply elem_of_map_to_list.
Qed.

(** X19: [facet_field_list()] lists the names of the facet fields, each
    of them once, in ascending order. *)
Theorem facet_field_list_sorted (this : response) (ff : gmap string json) :
  path (_raw this) ["facet_counts"; "facet_fields"] = Ok (Some (JObj ff)) →
  ∃ names, facet_field_list this = Ok names ∧
           Sorted string_le names ∧ NoDup names ∧
           ∀ g, g ∈ names ↔ is_Some (ff !! g).
Proof.
  intros Hpath. unfold facet_field_list. rewrite Hpath. cbn [rbind keys].
  eexists. split; [done|]. split_and!.
  - apply (Sorted_merge_sort string_le).
  - rewrite merge_sort_Permutation. apply NoDup_fst_map_to_list.
  - apply facet_names.
Qed.

Lemma facet_field_list_sorted_witness :
  ∃ names, facet_field_list response_paired_facets = Ok names ∧
           Sorted string_le names ∧ NoDup names ∧
           ∀ g, g ∈ names ↔
                is_Some (({[ "go_aspect" :=
                               JArr (pair_item <$> [("biological_process", JNum 120);
                                                    ("molecular_function", JNum 80);
                                                    ("biological_process", JNum 7)]) ]}
                          : gmap string json) !! g).
Proof.
  apply (facet_field_list_sorted response_paired_facets). reflexivity.
Defined.



Lemma get_throws_type (v : value) (k : string) (e : error) :
  get v k = Throw e → e = TypeError.
Proof.
  destruct v as [[| | | s | l | m]|]; simpl; try congruence.
  - destruct (index_of_key _ _); [done|]. by destruct (String.eqb _ _).
  - destruct (index_of_key _ _); [done|]. by destruct (String.eqb _ _).
Qed.

Lemma facet_item_throws (g : string) (h : gmap string (gmap string value))
    (entry : value * value) (e : error) :
  facet_item g h entry = Throw e → e = TypeError.
Proof.
  unfold facet_item.
  destruct (get entry.1 "0") as [name|e0] eqn:Hname; cbn [rbind];
    [|intros [= <-]; by eapply get_throws_type].
  destruct (get entry.1 "1") as [count|e1] eqn:Hcount; cbn [rbind];
    [|intros [= <-]; by eapply get_throws_type].
  unfold put2. destruct (h !! g); [congruence|].
  destruct (inherited g); congruence.
Qed.

(** X21: a [null] among the items of a facet field makes
    [facet_counts()] throw a [TypeError], whatever the other fields
    hold. *)
Theorem facet_counts_null_item (this : response) (ff : gmap string json)
    (g : string) (items : list json) :
  path (_raw this) ["facet_counts"; "facet_fields"] = Ok (Some (JObj ff)) →
  ff !! g = Some (JArr items) →
  JNull ∈ items →
  facet_counts this = Throw TypeError.
Proof.
  intros Hpath Hg Hnull. unfold facet_counts, facet_field_list.
  rewrite Hpath. cbn [rbind keys].
  apply (rfold_throws _ _ _ g).
  - apply facet_names. eauto.
  - intros acc. unfold facet_field. rewrite Hpath. cbn [rbind get]. rewrite Hg.
    cbn [each_entries]. apply list_elem_of_lookup in Hnull as [i Hi].
    apply (rfold_throws _ _ _ (Some JNull, Some (JNum (Z.of_nat i)))).
    + apply elem_of_lookup_imap. eauto.
    + done.
    + intros acc' y e'. apply facet_item_throws.
  - intros acc f e'. unfold facet_field. rewrite Hpath. cbn [rbind get].
    intros (acc' & y & _ & Hy)%rfold_throw_inv. by eapply facet_item_throws.
Qed.

Lemma facet_counts_null_item_witness :
  facet_counts response_null_facet = Throw TypeError.
Proof.
  apply (facet_counts_null_item response_null_facet
           {[ "go_aspect" := JArr [JArr [JStr "biological_process"; JNum 120]; JNull] ]}
           "go_aspect" [JArr [JStr "biological_process"; JNum 120]; JNull]).
  - reflexivity.
  - reflexivity.
  - right. left.
Defined.
